(** * speech_server.py: session logger and transcript broadcast hub

    A shallow embedding of [speech_server.py].  The module keeps three pieces
    of global state ([connected_clients], [session_file],
    [session_start_time]) and talks to a clock, a file system, the console and
    a set of websocket connections.  All of it is gathered in one record,
    [World], and every Python function becomes a computation in a small
    state-and-exception monad over that record.

    Conventions.
    - A Python [str] is a Rocq [string] holding its UTF-8 encoding.
    - Python sets are [gset]s; iterating a set visits [elements] of it.
    - Exceptions derived from [Exception] are values of [Exn]; interrupts
      ([BaseException]) and operating-system I/O errors are not modelled.
    - The connection-serving thread runs concurrently with the callback
      thread.  Its atomic actions ([EnvOp]) are scheduled at every point
      where the callback thread acquires [clients_lock] or awaits a send. *)

From Stdlib Require Import ZArith Ascii String List.
From stdpp Require Import base tactics option list gmap strings pretty.

Local Open Scope Z_scope.

(** ** Text *)

Module Text.

Definition nl : string := String "010"%char EmptyString.
Definition dquote : string := String "034"%char EmptyString.
Definition backslash : string := String "092"%char EmptyString.

(** [s * n] on strings. *)
Fixpoint str_repeat (s : string) (n : nat) : string :=
  match n with
  | O => EmptyString
  | S n' => s +:+ str_repeat s n'
  end.

(** Left padding with zeros, as the [%0Nd] conversions do for a non-negative
    number. *)
Definition zfill (width : nat) (s : string) : string :=
  str_repeat "0" (width - String.length s) +:+ s.

Definition fmt_d (n : Z) : string := pretty n.
Definition fmt_02d (n : Z) : string := zfill 2 (pretty n).
Definition fmt_04d (n : Z) : string := zfill 4 (pretty n).
Definition fmt_06d (n : Z) : string := zfill 6 (pretty n).

Fixpoint concat_str (l : list string) : string :=
  match l with
  | [] => EmptyString
  | s :: l' => s +:+ concat_str l'
  end.

End Text.
Import Text.

(** ** datetime *)

Record DateTime := mkDateTime {
  year : Z; month : Z; day : Z;
  hour : Z; minute : Z; second : Z; microsecond : Z
}.

Definition valid_time (d : DateTime) : Prop :=
  0 <= hour d < 24 /\ 0 <= minute d < 60 /\ 0 <= second d < 60.

(** [strftime("%H:%M:%S")] *)
Definition strftime_HMS (d : DateTime) : string :=
  fmt_02d (hour d) +:+ ":" +:+ fmt_02d (minute d) +:+ ":" +:+ fmt_02d (second d).

(** [strftime("%Y%m%d_%H%M%S")] *)
Definition strftime_compact (d : DateTime) : string :=
  fmt_04d (year d) +:+ fmt_02d (month d) +:+ fmt_02d (day d) +:+ "_" +:+
  fmt_02d (hour d) +:+ fmt_02d (minute d) +:+ fmt_02d (second d).

(** [strftime("%Y-%m-%d %H:%M:%S")] *)
Definition strftime_full (d : DateTime) : string :=
  fmt_04d (year d) +:+ "-" +:+ fmt_02d (month d) +:+ "-" +:+ fmt_02d (day d) +:+
  " " +:+ strftime_HMS d.

(** [datetime.__sub__] and [timedelta.__str__], following the pure-Python
    [datetime] module: the difference is normalised to days, seconds in
    [0, 86400) and microseconds in [0, 10^6). *)
Record TimeDelta := mkTimeDelta { td_days : Z; td_seconds : Z; td_microseconds : Z }.

Definition is_leap (y : Z) : bool :=
  (y mod 4 =? 0) && (negb (y mod 100 =? 0) || (y mod 400 =? 0)).

Definition days_before_year (y : Z) : Z :=
  let p := y - 1 in p * 365 + p / 4 - p / 100 + p / 400.

Definition days_before_month_table : list Z :=
  [0; 0; 31; 59; 90; 120; 151; 181; 212; 243; 273; 304; 334].

Definition days_before_month (y m : Z) : Z :=
  nth (Z.to_nat m) days_before_month_table 0 +
  (if (2 <? m) && is_leap y then 1 else 0).

Definition ymd2ord (y m d : Z) : Z :=
  days_before_year y + days_before_month y m + d.

Definition toordinal (d : DateTime) : Z := ymd2ord (year d) (month d) (day d).

Definition timedelta (days seconds microseconds : Z) : TimeDelta :=
  let s := seconds + microseconds / 1000000 in
  let us := microseconds mod 1000000 in
  let d := days + s / 86400 in
  mkTimeDelta d (s mod 86400) us.

Definition datetime_sub (a b : DateTime) : TimeDelta :=
  let secs1 := second a + minute a * 60 + hour a * 3600 in
  let secs2 := second b + minute b * 60 + hour b * 3600 in
  timedelta (toordinal a - toordinal b) (secs1 - secs2)
            (microsecond a - microsecond b).

Definition str_timedelta (t : TimeDelta) : string :=
  let mm := td_seconds t / 60 in
  let ss := td_seconds t mod 60 in
  let hh := mm / 60 in
  let mm := mm mod 60 in
  let s := fmt_d hh +:+ ":" +:+ fmt_02d mm +:+ ":" +:+ fmt_02d ss in
  let s := if td_days t =? 0 then s
           else fmt_d (td_days t) +:+ " day" +:+
                (if Z.abs (td_days t) =? 1 then EmptyString else "s") +:+ ", " +:+ s in
  if td_microseconds t =? 0 then s
  else s +:+ "." +:+ fmt_06d (td_microseconds t).

(** ** json.dumps

    The encoder with its default settings ([ensure_ascii=True], separators
    [", "] and [": "]), for the values this program serialises: a dict from
    string keys to strings and booleans. *)

Module Json.

Inductive JValue :=
  | JStr (s : string)
  | JBool (b : bool).

Definition cont (b : ascii) : Z := Z.land (Z.of_N (N_of_ascii b)) 63.

(** Code points of a UTF-8 encoded string.  A byte that does not start a
    complete sequence (which no [str] produces) is passed through. *)
Fixpoint code_points (s : string) : list Z :=
  match s with
  | EmptyString => []
  | String b0 s1 =>
      let n0 := Z.of_N (N_of_ascii b0) in
      if n0 <? 128 then n0 :: code_points s1
      else if (192 <=? n0) && (n0 <? 224) then
        match s1 with
        | String b1 s2 =>
            (Z.shiftl (Z.land n0 31) 6 + cont b1) :: code_points s2
        | _ => n0 :: code_points s1
        end
      else if (224 <=? n0) && (n0 <? 240) then
        match s1 with
        | String b1 (String b2 s3) =>
            (Z.shiftl (Z.land n0 15) 12 + Z.shiftl (cont b1) 6 + cont b2)
              :: code_points s3
        | _ => n0 :: code_points s1
        end
      else if (240 <=? n0) && (n0 <? 248) then
        match s1 with
        | String b1 (String b2 (String b3 s4)) =>
            (Z.shiftl (Z.land n0 7) 18 + Z.shiftl (cont b1) 12 +
             Z.shiftl (cont b2) 6 + cont b3) :: code_points s4
        | _ => n0 :: code_points s1
        end
      else n0 :: code_points s1
  end.

Definition hex_digit (n : Z) : string :=
  String (nth (Z.to_nat n)
              ["0"; "1"; "2"; "3"; "4"; "5"; "6"; "7";
               "8"; "9"; "a"; "b"; "c"; "d"; "e"; "f"]%char "0"%char)
         EmptyString.

(** ['{0:04x}'.format(n)] for [n] below [0x10000]. *)
Definition hex4 (n : Z) : string :=
  hex_digit (Z.shiftr n 12 mod 16) +:+ hex_digit (Z.shiftr n 8 mod 16) +:+
  hex_digit (Z.shiftr n 4 mod 16) +:+ hex_digit (n mod 16).

Definition u_escape (n : Z) : string := backslash +:+ "u" +:+ hex4 n.

(** The replacement of one code point in [encode_basestring_ascii]. *)
Definition escape_code_point (n : Z) : string :=
  if n =? 92 then backslash +:+ backslash
  else if n =? 34 then backslash +:+ dquote
  else if n =? 8 then backslash +:+ "b"
  else if n =? 12 then backslash +:+ "f"
  else if n =? 10 then backslash +:+ "n"
  else if n =? 13 then backslash +:+ "r"
  else if n =? 9 then backslash +:+ "t"
  else if (32 <=? n) && (n <=? 126) then
    String (ascii_of_N (Z.to_N n)) EmptyString
  else if n <? 65536 then u_escape n
  else
    let m := n - 65536 in
    u_escape (Z.lor 55296 (Z.land (Z.shiftr m 10) 1023)) +:+
    u_escape (Z.lor 56320 (Z.land m 1023)).

Definition encode_basestring_ascii (s : string) : string :=
  dquote +:+ concat_str (map escape_code_point (code_points s)) +:+ dquote.

Definition encode_value (v : JValue) : string :=
  match v with
  | JStr s => encode_basestring_ascii s
  | JBool true => "true"
  | JBool false => "false"
  end.

Definition encode_item (kv : string * JValue) : string :=
  encode_basestring_ascii kv.1 +:+ ": " +:+ encode_value kv.2.

Fixpoint join_items (l : list string) : string :=
  match l with
  | [] => EmptyString
  | [s] => s
  | s :: l' => s +:+ ", " +:+ join_items l'
  end.

Definition json_dumps (d : list (string * JValue)) : string :=
  "{" +:+ join_items (map encode_item d) +:+ "}".

End Json.
Import Json.

(** ** The world: module globals and their environment *)

(** A websocket connection object, identified by the order in which the
    listener accepted it. *)
Abbreviation Client := nat (only parsing).

(** A text file object opened for writing.  Written text stays in [f_buffer]
    until it is flushed to the file called [f_name]. *)
Record FileObj := mkFile {
  f_name : string;
  f_buffer : string;
  f_closed : bool
}.

(** One call of [client.send(message)] and how it ended. *)
Inductive NetEvent :=
  | SendOk (c : Client) (m : string)
  | SendFail (c : Client) (m : string).

(** Atomic actions of the connection-serving thread: a new connection is
    accepted and its handler registers it; a handler leaves (after an error
    [err] or a clean end of stream) and unregisters its connection; a
    connection goes down while its handler has not yet noticed. *)
Inductive EnvOp :=
  | EnvConnect
  | EnvDisconnect (c : Client) (err : option string)
  | EnvBreak (c : Client).

Record World := mkWorld {
  (* module globals *)
  connected_clients : gset Client;
  session_file : option FileObj;
  session_start_time : option DateTime;
  (* file system *)
  fs_files : gmap string string;
  fs_dirs : gset string;
  (* wall clock: the value of the n-th call of datetime.now() *)
  clock : nat -> DateTime;
  clock_reads : nat;
  (* console *)
  stdout : list string;
  (* connections *)
  remote_address : Client -> string;
  next_conn : Client;
  conn_down : gset Client;
  net : list NetEvent;
  (* what the other thread does at the coming scheduling points *)
  sched : list (list EnvOp)
}.

Definition set_clients (s : gset Client) (w : World) : World :=
  mkWorld s (session_file w) (session_start_time w) (fs_files w) (fs_dirs w)
          (clock w) (clock_reads w) (stdout w) (remote_address w)
          (next_conn w) (conn_down w) (net w) (sched w).

Definition set_session_file (f : option FileObj) (w : World) : World :=
  mkWorld (connected_clients w) f (session_start_time w) (fs_files w)
          (fs_dirs w) (clock w) (clock_reads w) (stdout w) (remote_address w)
          (next_conn w) (conn_down w) (net w) (sched w).

Definition set_session_start_time (d : option DateTime) (w : World) : World :=
  mkWorld (connected_clients w) (session_file w) d (fs_files w) (fs_dirs w)
          (clock w) (clock_reads w) (stdout w) (remote_address w)
          (next_conn w) (conn_down w) (net w) (sched w).

Definition set_fs_files (m : gmap string string) (w : World) : World :=
  mkWorld (connected_clients w) (session_file w) (session_start_time w) m
          (fs_dirs w) (clock w) (clock_reads w) (stdout w) (remote_address w)
          (next_conn w) (conn_down w) (net w) (sched w).

Definition set_fs_dirs (d : gset string) (w : World) : World :=
  mkWorld (connected_clients w) (session_file w) (session_start_time w)
          (fs_files w) d (clock w) (clock_reads w) (stdout w)
          (remote_address w) (next_conn w) (conn_down w) (net w) (sched w).

Definition tick (w : World) : World :=
  mkWorld (connected_clients w) (session_file w) (session_start_time w)
          (fs_files w) (fs_dirs w) (clock w) (S (clock_reads w)) (stdout w)
          (remote_address w) (next_conn w) (conn_down w) (net w) (sched w).

Definition put_stdout (line : string) (w : World) : World :=
  mkWorld (connected_clients w) (session_file w) (session_start_time w)
          (fs_files w) (fs_dirs w) (clock w) (clock_reads w)
          (stdout w ++ [line]) (remote_address w) (next_conn w) (conn_down w)
          (net w) (sched w).

Definition set_next_conn (n : Client) (w : World) : World :=
  mkWorld (connected_clients w) (session_file w) (session_start_time w)
          (fs_files w) (fs_dirs w) (clock w) (clock_reads w) (stdout w)
          (remote_address w) n (conn_down w) (net w) (sched w).

Definition set_conn_down (s : gset Client) (w : World) : World :=
  mkWorld (connected_clients w) (session_file w) (session_start_time w)
          (fs_files w) (fs_dirs w) (clock w) (clock_reads w) (stdout w)
          (remote_address w) (next_conn w) s (net w) (sched w).

Definition put_net (e : NetEvent) (w : World) : World :=
  mkWorld (connected_clients w) (session_file w) (session_start_time w)
          (fs_files w) (fs_dirs w) (clock w) (clock_reads w) (stdout w)
          (remote_address w) (next_conn w) (conn_down w) (net w ++ [e])
          (sched w).

Definition set_sched (s : list (list EnvOp)) (w : World) : World :=
  mkWorld (connected_clients w) (session_file w) (session_start_time w)
          (fs_files w) (fs_dirs w) (clock w) (clock_reads w) (stdout w)
          (remote_address w) (next_conn w) (conn_down w) (net w) s.

(** ** The monad of Python statements *)

Inductive Exn :=
  | ValueError (msg : string)
  | AttributeError (msg : string)
  | TypeError (msg : string)
  | ConnectionClosed.

Inductive Outcome (A : Type) :=
  | Return (a : A)
  | Raise (e : Exn).
Arguments Return {A} a.
Arguments Raise {A} e.

Definition M (A : Type) : Type := World -> Outcome A * World.

#[global] Instance M_ret : MRet M := fun A a w => (Return a, w).

#[global] Instance M_bind : MBind M := fun A B f m w =>
  match m w with
  | (Return a, w') => f a w'
  | (Raise e, w') => (Raise e, w')
  end.

Definition raise {A} (e : Exn) : M A := fun w => (Raise e, w).

Definition get {A} (f : World -> A) : M A := fun w => (Return (f w), w).

Definition modify (f : World -> World) : M unit := fun w => (Return tt, f w).

(** [try: body  except Exception: handler] *)
Definition try_except {A} (body : M A) (handler : Exn -> M A) : M A := fun w =>
  match body w with
  | (Return a, w') => (Return a, w')
  | (Raise e, w') => handler e w'
  end.

(** [for x in l: body x] *)
Fixpoint for_each {A} (l : list A) (body : A -> M unit) : M unit :=
  match l with
  | [] => mret tt
  | x :: l' => body x ;; for_each l' body
  end.

(** ** Library calls *)

Definition datetime_now : M DateTime := fun w =>
  (Return (clock w (clock_reads w)), tick w).

Definition print (line : string) : M unit := modify (put_stdout line).

(** [os.makedirs(path, exist_ok=True)] *)
Definition os_makedirs (path : string) : M unit :=
  modify (fun w => set_fs_dirs ({[path]} ∪ fs_dirs w) w).

(** [open(name, "w", encoding="utf-8")]: the file is created or truncated. *)
Definition open_w (name : string) : M FileObj := fun w =>
  (Return (mkFile name EmptyString false),
   set_fs_files (<[name := EmptyString]> (fs_files w)) w).

Definition closed_file_error : Exn := ValueError "I/O operation on closed file.".

Definition none_error (attr : string) : Exn :=
  AttributeError ("'NoneType' object has no attribute '" +:+ attr +:+ "'").

(** The methods of the file object bound to the global [session_file]. *)
Definition session_file_write (s : string) : M unit := fun w =>
  match session_file w with
  | None => (Raise (none_error "write"), w)
  | Some f =>
      if f_closed f then (Raise closed_file_error, w)
      else (Return tt,
            set_session_file (Some (mkFile (f_name f) (f_buffer f +:+ s) false)) w)
  end.

Definition stored (name : string) (w : World) : string :=
  default EmptyString (fs_files w !! name).

Definition flush_to_storage (f : FileObj) (w : World) : World :=
  set_fs_files (<[f_name f := stored (f_name f) w +:+ f_buffer f]> (fs_files w)) w.

Definition session_file_flush : M unit := fun w =>
  match session_file w with
  | None => (Raise (none_error "flush"), w)
  | Some f =>
      if f_closed f then (Raise closed_file_error, w)
      else (Return tt,
            set_session_file (Some (mkFile (f_name f) EmptyString false))
                             (flush_to_storage f w))
  end.

Definition session_file_close : M unit := fun w =>
  match session_file w with
  | None => (Raise (none_error "close"), w)
  | Some f =>
      if f_closed f then (Return tt, w)
      else (Return tt,
            set_session_file (Some (mkFile (f_name f) EmptyString true))
                             (flush_to_storage f w))
  end.

(** ** The connection-serving thread *)

(** Lines 99-102 of [websocket_handler]: announce and register. *)
Definition handler_enter (websocket : Client) (w : World) : World :=
  let w := put_stdout ("New client connected from " +:+ remote_address w websocket) w in
  set_clients ({[websocket]} ∪ connected_clients w) w.

(** Lines 108-113 of [websocket_handler]: the [except] and [finally] parts. *)
Definition handler_exit (websocket : Client) (err : option string) (w : World) : World :=
  let w := match err with
           | Some e => put_stdout ("Client error: " +:+ e) w
           | None => w
           end in
  let w := set_clients (connected_clients w ∖ {[websocket]}) w in
  put_stdout "Client disconnected" w.

Definition env_step (w : World) (op : EnvOp) : World :=
  match op with
  | EnvConnect =>
      let websocket := next_conn w in
      handler_enter websocket (set_next_conn (S websocket) w)
  | EnvDisconnect c err =>
      if bool_decide (c < next_conn w)%nat
      then handler_exit c err (set_conn_down ({[c]} ∪ conn_down w) w)
      else w
  | EnvBreak c =>
      if bool_decide (c < next_conn w)%nat
      then set_conn_down ({[c]} ∪ conn_down w) w
      else w
  end.

(** A scheduling point: the other thread runs its next block of actions. *)
Definition yield : M unit := fun w =>
  match sched w with
  | [] => (Return tt, w)
  | ops :: rest => (Return tt, foldl env_step (set_sched rest w) ops)
  end.

(** [with clients_lock: body] *)
Definition with_clients_lock {A} (body : M A) : M A := yield ;; body.

(** [await client.send(message)] *)
Definition ws_send (client : Client) (message : string) : M unit :=
  yield ;;
  down ← get conn_down;
  if bool_decide (client ∈ down)
  then modify (put_net (SendFail client message)) ;; raise ConnectionClosed
  else modify (put_net (SendOk client message)).

(** [asyncio.run(coro)] drives the coroutine to completion on a fresh event
    loop in the calling thread and returns its result. *)
Definition asyncio_run {A} (coro : M A) : M A := coro.

(** ** The program *)

Definition session_filename (d : DateTime) : string :=
  "transcripts/transcription_" +:+ strftime_compact d +:+ ".txt".

Definition session_header (d : DateTime) : string :=
  "Audio Transcription Log" +:+ nl +:+
  ("Started: " +:+ strftime_full d +:+ nl) +:+
  (str_repeat "=" 80 +:+ nl +:+ nl).

Definition create_session_file : M string :=
  os_makedirs "transcripts" ;;
  start ← datetime_now;
  modify (set_session_start_time (Some start)) ;;
  let timestamp := strftime_compact start in
  let filename := "transcripts/transcription_" +:+ timestamp +:+ ".txt" in
  f ← open_w filename;
  modify (set_session_file (Some f)) ;;
  session_file_write ("Audio Transcription Log" +:+ nl) ;;
  session_file_write ("Started: " +:+ strftime_full start +:+ nl) ;;
  session_file_write (str_repeat "=" 80 +:+ nl +:+ nl) ;;
  session_file_flush ;;
  print ("📝 Transcription log created: " +:+ filename) ;;
  mret filename.

Definition status_tag (is_final : bool) : string :=
  if is_final then "FINAL" else "PARTIAL".

Definition log_transcript (text : string) (is_final : bool) : M unit :=
  f ← get session_file;
  match f with
  | None => mret tt
  | Some _ =>
      now ← datetime_now;
      let timestamp := strftime_HMS now in
      let status := status_tag is_final in
      session_file_write ("[" +:+ timestamp +:+ "] [" +:+ status +:+ "]" +:+ nl) ;;
      session_file_write ("Text: " +:+ text +:+ nl +:+ nl) ;;
      session_file_flush
  end.

(** The dict handed to [json.dumps]. *)
Definition transcript_event (text : string) (is_final : bool) (timestamp : string)
  : list (string * JValue) :=
  [("text", JStr text); ("is_final", JBool is_final); ("timestamp", JStr timestamp)].

Definition discard_client (client : Client) : M unit :=
  modify (fun w => set_clients (connected_clients w ∖ {[client]}) w).

Definition add_client (client : Client) : M unit :=
  modify (fun w => set_clients ({[client]} ∪ connected_clients w) w).

(** The loop of lines 73-79 over the snapshot. *)
Definition send_to_all (clients : list Client) (message : string) : M unit :=
  for_each clients (fun client =>
    try_except (ws_send client message)
               (fun _ => with_clients_lock (discard_client client))).

Definition broadcast_transcript (text : string) (is_final : bool) : M unit :=
  current ← get connected_clients;
  if bool_decide (current = ∅) then mret tt
  else
    now ← datetime_now;
    let message := json_dumps (transcript_event text is_final (strftime_HMS now)) in
    clients ← with_clients_lock (get connected_clients);
    send_to_all (elements clients) message.

Definition on_text (text : string) (is_final : bool) : M unit :=
  if negb is_final then
    print ("[Partial] " +:+ text) ;;
    log_transcript text false ;;
    asyncio_run (broadcast_transcript text false)
  else
    print ("[Speech] " +:+ text) ;;
    log_transcript text true ;;
    asyncio_run (broadcast_transcript text true).

Definition type_error : Exn :=
  TypeError "unsupported operand type(s) for -: 'datetime.datetime' and 'NoneType'".

Definition session_footer (start finish : DateTime) : string :=
  (nl +:+ str_repeat "=" 80 +:+ nl) +:+
  ("Session ended: " +:+ strftime_full finish +:+ nl) +:+
  ("Duration: " +:+ str_timedelta (datetime_sub finish start) +:+ nl).

(** Lines 176-185 of the main program: the session log is closed. *)
Definition close_session_file (log_filename : string) : M unit :=
  f ← get session_file;
  match f with
  | None => mret tt
  | Some _ =>
      session_end_time ← datetime_now;
      start ← get session_start_time;
      match start with
      | None => raise type_error
      | Some start =>
          let duration := datetime_sub session_end_time start in
          session_file_write (nl +:+ str_repeat "=" 80 +:+ nl) ;;
          session_file_write ("Session ended: " +:+ strftime_full session_end_time +:+ nl) ;;
          session_file_write ("Duration: " +:+ str_timedelta duration +:+ nl) ;;
          session_file_close ;;
          print ("📝 Transcription log saved: " +:+ log_filename)
      end
  end.

(** The state of the module right after import. *)
Definition initial_world (clk : nat -> DateTime) (addr : Client -> string)
    (schedule : list (list EnvOp)) : World :=
  mkWorld ∅ None None ∅ ∅ clk 0%nat [] addr 0%nat ∅ [] schedule.

(** ** Notions used in the statements *)

(** Running a computation: its outcome and the world it leaves. *)
Definition outcome {A} (m : M A) (w : World) : Outcome A := (m w).1.
Definition after {A} (m : M A) (w : World) : World := (m w).2.

(** The calls of [send] made while [m] runs from [w]. *)
Definition sends_during {A} (m : M A) (w : World) : list NetEvent :=
  drop (length (net w)) (net (after m w)).

Definition frames_to (c : Client) (evs : list NetEvent) : list string :=
  omap (fun e => match e with
                 | SendOk c' m => if bool_decide (c' = c) then Some m else None
                 | SendFail _ _ => None
                 end) evs.

Definition failures_of (c : Client) (evs : list NetEvent) : list string :=
  omap (fun e => match e with
                 | SendFail c' m => if bool_decide (c' = c) then Some m else None
                 | SendOk _ _ => None
                 end) evs.

(** World in which [broadcast_transcript] copies the subscriber set, and the
    message it has built by then. *)
Definition at_snapshot (w : World) : World := after yield (tick w).

(** The copy taken at line 70; no copy is taken when the function returns at
    line 60. *)
Definition snapshot (w : World) : gset Client :=
  if bool_decide (connected_clients w = ∅) then ∅
  else connected_clients (at_snapshot w).

Definition wire_message (text : string) (is_final : bool) (w : World) : string :=
  json_dumps (transcript_event text is_final (strftime_HMS (clock w (clock_reads w)))).

Definition ev_client (e : NetEvent) : Client :=
  match e with SendOk c _ | SendFail c _ => c end.

Definition ev_message (e : NetEvent) : string :=
  match e with SendOk _ m | SendFail _ m => m end.

(** Every registered connection was accepted by the listener. *)
Definition hub_wf (w : World) : Prop :=
  ∀ c, c ∈ connected_clients w → (c < next_conn w)%nat.

(** What the hub may look like later: connections join only when they are
    newly accepted. *)
Definition evolves (w w' : World) : Prop :=
  (next_conn w ≤ next_conn w')%nat ∧
  ∀ c, c ∈ connected_clients w' →
       c ∈ connected_clients w ∨ (next_conn w ≤ c < next_conn w')%nat.

(** What the connection-serving thread never touches. *)
Definition env_frame (w w' : World) : Prop :=
  net w' = net w ∧ session_file w' = session_file w ∧
  session_start_time w' = session_start_time w ∧
  fs_files w' = fs_files w ∧ fs_dirs w' = fs_dirs w ∧
  clock w' = clock w ∧ clock_reads w' = clock_reads w.

Definition is_digit (a : ascii) : bool :=
  let n := N_of_ascii a in (48 <=? n)%N && (n <=? 57)%N.

Definition is_colon (a : ascii) : bool := (N_of_ascii a =? 58)%N.

(** The shape [HH:MM:SS]. *)
Definition is_HMS (s : string) : bool :=
  match s with
  | String h1 (String h2 (String c1 (String m1 (String m2 (String c2
      (String s1 (String s2 EmptyString))))))) =>
      is_digit h1 && is_digit h2 && is_colon c1 && is_digit m1 && is_digit m2
      && is_colon c2 && is_digit s1 && is_digit s2
  | _ => false
  end.

(** Number of times a handle is met when the set is iterated. *)
Definition occurrences (c : Client) (s : gset Client) : nat :=
  length (filter (fun x => x = c) (elements s)).

(** The operations of the hub. *)
Inductive HubOp :=
  | Register (c : Client)
  | Unregister (c : Client)
  | Publish (text : string) (is_final : bool).

Definition hub_op (op : HubOp) : M unit :=
  match op with
  | Register c => with_clients_lock (add_client c)
  | Unregister c => with_clients_lock (discard_client c)
  | Publish text is_final => broadcast_transcript text is_final
  end.

(** The session log is open: the global holds an open file object with
    nothing waiting in its buffer. *)
Definition session_open (name : string) (w : World) : Prop :=
  session_file w = Some (mkFile name EmptyString false).

(** The record of one event as the log format describes it. *)
Definition block_format (timestamp tag text : string) : string :=
  "[" +:+ timestamp +:+ "] [" +:+ tag +:+ "]" +:+ nl +:+
  "Text: " +:+ text +:+ nl +:+ nl.

(** The blocks of a sequence of calls, the first of which reads the clock
    for the [n]-th time. *)
Fixpoint log_blocks (clk : nat → DateTime) (n : nat) (calls : list (string * bool))
  : string :=
  match calls with
  | [] => EmptyString
  | (text, is_final) :: rest =>
      block_format (strftime_HMS (clk n)) (if is_final then "FINAL" else "PARTIAL") text
      +:+ log_blocks clk (S n) rest
  end.

Definition log_calls (calls : list (string * bool)) : M unit :=
  for_each calls (fun call => log_transcript call.1 call.2).

(** The same instant with another sub-second part. *)
Definition with_microsecond (d : DateTime) (us : Z) : DateTime :=
  mkDateTime (year d) (month d) (day d) (hour d) (minute d) (second d) us.

Definition callback_label (is_final : bool) : string :=
  if is_final then "[Speech] " else "[Partial] ".

(** World in which the publish of a callback starts. *)
Definition publish_start (text : string) (is_final : bool) (w : World) : World :=
  after (print (callback_label is_final +:+ text) ;; log_transcript text is_final) w.

(** The claim of a fire-and-forget hand-off: the callback returns without
    having waited for any send. *)
Definition fire_and_forget (text : string) (is_final : bool) (w : World) : Prop :=
  sends_during (on_text text is_final) w = [].

(** ** Concrete runs *)

Definition demo_clock (n : nat) : DateTime :=
  mkDateTime 2024 3 9 7 5 (Z.of_nat n mod 60) 0.

Definition demo_addr (c : Client) : string := "127.0.0.1".

(** Two subscribers are registered.  While a publish is under way, after the
    copy has been taken, connection 0 goes down and a third connection is
    accepted. *)
Definition demo_hub : World :=
  mkWorld {[0%nat; 1%nat]} None None ∅ ∅ demo_clock 0%nat [] demo_addr 2%nat ∅ []
          [[]; [EnvBreak 0%nat; EnvConnect]].

(** A fresh process, and the same once its session log is created. *)
Definition demo_start : World := initial_world demo_clock demo_addr [].

Definition demo_session : World := after create_session_file demo_start.

(** A second session started within the second of the first one. *)
Definition same_second_clock (n : nat) : DateTime :=
  mkDateTime 2024 3 9 7 5 0 (Z.of_nat n).

Definition restarted : World :=
  after (create_session_file ;; log_transcript "hello" true)
        (initial_world same_second_clock demo_addr []).

(** The session of [demo_session] after the shutdown path has closed it. *)
Definition demo_closed : World :=
  after (close_session_file "transcripts/transcription_20240309_070500.txt")
        demo_session.

(** A subscriber is connected, and the session has been closed. *)
Definition demo_closed_with_subscriber : World :=
  after (create_session_file ;; yield ;;
         close_session_file "transcripts/transcription_20240309_070500.txt")
        (initial_world demo_clock demo_addr [[EnvConnect]]).

(** ** Notions used for the rest of the module *)

(** What a publish never touches: the session log and the file system. *)
Definition logger_frame (w w' : World) : Prop :=
  session_file w' = session_file w ∧
  session_start_time w' = session_start_time w ∧
  fs_files w' = fs_files w ∧ fs_dirs w' = fs_dirs w ∧ clock w' = clock w.

(** The send a connection answers with, given the connections that are
    down. *)
Definition send_event (down : gset Client) (message : string) (c : Client)
  : NetEvent :=
  if bool_decide (c ∈ down) then SendFail c message else SendOk c message.

(** The recogniser calls back once per event. *)
Definition callbacks (events : list (string * bool)) : M unit :=
  for_each events (fun ev => on_text ev.1 ev.2).

(** The blocks of a sequence of events, the [i]-th stamped with the clock
    value of read number [stamps !! i]. *)
Fixpoint session_blocks (clk : nat → DateTime) (stamps : list nat)
    (events : list (string * bool)) : string :=
  match stamps, events with
  | n :: stamps', (text, is_final) :: events' =>
      block_format (strftime_HMS (clk n)) (if is_final then "FINAL" else "PARTIAL") text
      +:+ session_blocks clk stamps' events'
  | _, _ => EmptyString
  end.

(** [try: body  finally: cleanup] *)
Definition try_finally {A} (body : M A) (cleanup : M unit) : M A := fun w =>
  match body w with
  | (r, w1) =>
      match cleanup w1 with
      | (Return _, w2) => (r, w2)
      | (Raise e, w2) => (Raise e, w2)
      end
  end.

(** A whole run of the main program: the session is created (line 128), the
    recogniser calls back (lines 148 and 158) until the process is
    interrupted, and the [finally] part closes the session (lines 176-185). *)
Definition run_session (events : list (string * bool)) : M unit :=
  log_filename ← create_session_file;
  try_finally (callbacks events) (close_session_file log_filename).

(** Two subscribers, the first with its connection down, and nothing else
    going on. *)
Definition quiet_hub : World :=
  mkWorld {[0%nat; 1%nat]} None None ∅ ∅ demo_clock 0%nat [] demo_addr 2%nat
          {[0%nat]} [] [].

(** A session is open and, at the next scheduling point, a subscriber
    connects. *)
Definition demo_session_with_subscriber : World :=
  after create_session_file (initial_world demo_clock demo_addr [[EnvConnect]]).



(** A calendar date with a four-digit year. *)
Definition valid_date (d : DateTime) : Prop :=
  1000 <= year d <= 9999 /\ 1 <= month d <= 12 /\ 1 <= day d <= 31.

(** The number a string of decimal digits stands for. *)
Fixpoint digits_value_from (acc : Z) (s : string) : Z :=
  match s with
  | EmptyString => acc
  | String a s' => digits_value_from (acc * 10 + (Z.of_N (N_of_ascii a) - 48)) s'
  end.

Definition digits_value (s : string) : Z := digits_value_from 0 s.

(** Printable ASCII: the characters from the space to the tilde. *)
Definition is_printable (a : ascii) : bool :=
  (32 <=? N_of_ascii a)%N && (N_of_ascii a <=? 126)%N.

Fixpoint printable (s : string) : bool :=
  match s with
  | EmptyString => true
  | String a s' => is_printable a && printable s'
  end.

(** * Properties *)

Ltac unfold_monad :=
  unfold outcome, after, asyncio_run, with_clients_lock, print, discard_client,
    add_client, modify, get, raise, try_except, mbind, M_bind, mret, M_ret in *.

Section Examples.

Example strftime_HMS_ex :
  strftime_HMS (mkDateTime 2024 3 9 7 5 59 123) = "07:05:59".
Proof. vm_compute. reflexivity. Qed.

Example strftime_compact_ex :
  strftime_compact (mkDateTime 2024 3 9 7 5 59 123) = "20240309_070559".
Proof. vm_compute. reflexivity. Qed.

Example str_timedelta_ex :
  str_timedelta (datetime_sub (mkDateTime 2024 3 1 0 0 1 0)
                              (mkDateTime 2024 2 28 23 59 59 500000))
  = "1 day, 0:00:01.500000".
Proof. vm_compute. reflexivity. Qed.

Example json_dumps_ex :
  json_dumps [("text", JStr "hi"); ("is_final", JBool false);
              ("timestamp", JStr "07:05:59")]
  = "{" +:+ dquote +:+ "text" +:+ dquote +:+ ": " +:+ dquote +:+ "hi" +:+ dquote
    +:+ ", " +:+ dquote +:+ "is_final" +:+ dquote +:+ ": false, "
    +:+ dquote +:+ "timestamp" +:+ dquote +:+ ": " +:+ dquote +:+ "07:05:59"
    +:+ dquote +:+ "}".
Proof. vm_compute. reflexivity. Qed.

Example escape_accent_ex :
  encode_basestring_ascii "é" = dquote +:+ backslash +:+ "u00e9" +:+ dquote.
Proof. vm_compute. reflexivity. Qed.

Example escape_astral_ex :
  encode_basestring_ascii "📝"
  = dquote +:+ backslash +:+ "ud83d" +:+ backslash +:+ "udcdd" +:+ dquote.
Proof. vm_compute. reflexivity. Qed.

Example escape_control_ex :
  encode_basestring_ascii (nl +:+ dquote)
  = dquote +:+ backslash +:+ "n" +:+ backslash +:+ dquote +:+ dquote.
Proof. vm_compute. reflexivity. Qed.

End Examples.

Section Scheduling.

Lemma evolves_refl w : evolves w w.
Proof. split; [lia | auto]. Qed.

Lemma evolves_trans w1 w2 w3 : evolves w1 w2 → evolves w2 w3 → evolves w1 w3.
Proof.
  intros [Hn12 H12] [Hn23 H23]. split; [lia |].
  intros c Hc. destruct (H23 c Hc) as [Hc2 | Hc2].
  - destruct (H12 c Hc2) as [? | ?]; [by left | right; lia].
  - right; lia.
Qed.

Lemma evolves_wf w w' : evolves w w' → hub_wf w → hub_wf w'.
Proof.
  intros [Hn H] Hwf c Hc. destruct (H c Hc) as [Hc' | ?]; [| lia].
  specialize (Hwf c Hc'). lia.
Qed.

Lemma evolves_absent w w' c :
  evolves w w' → (c < next_conn w)%nat → c ∉ connected_clients w →
  c ∉ connected_clients w'.
Proof. intros [Hn H] Hlt Hc Hc'. destruct (H c Hc') as [? | ?]; [done | lia]. Qed.

Lemma env_frame_refl w : env_frame w w.
Proof. by repeat split. Qed.

Lemma env_frame_trans w1 w2 w3 : env_frame w1 w2 → env_frame w2 w3 → env_frame w1 w3.
Proof. unfold env_frame. intros Ha Hb. destruct_and!. repeat split; congruence. Qed.

Lemma env_step_evolves w op : evolves w (env_step w op).
Proof.
  destruct op as [| c err | c]; simpl.
  - split; simpl; [lia |]. intros c Hc.
    apply elem_of_union in Hc as [Hc | Hc]; [| by left].
    apply elem_of_singleton in Hc. right; lia.
  - case_bool_decide; [| apply evolves_refl].
    split; [destruct err; simpl; lia |].
    intros c'. destruct err; simpl; intros Hc'; left;
      apply elem_of_difference in Hc' as [? _]; done.
  - case_bool_decide; [| apply evolves_refl]. split; simpl; [lia | auto].
Qed.

Lemma env_step_frame w op : env_frame w (env_step w op).
Proof.
  destruct op as [| c err | c]; simpl.
  - by repeat split.
  - case_bool_decide; [| apply env_frame_refl]. by destruct err; repeat split.
  - case_bool_decide; [| apply env_frame_refl]. by repeat split.
Qed.

Lemma env_steps_evolves ops w : evolves w (foldl env_step w ops).
Proof.
  revert w. induction ops as [| op ops IH]; intros w; simpl.
  - apply evolves_refl.
  - eapply evolves_trans; [apply env_step_evolves | apply IH].
Qed.

Lemma env_steps_frame ops w : env_frame w (foldl env_step w ops).
Proof.
  revert w. induction ops as [| op ops IH]; intros w; simpl.
  - apply env_frame_refl.
  - eapply env_frame_trans; [apply env_step_frame | apply IH].
Qed.

Lemma yield_returns w : yield w = (Return tt, after yield w).
Proof. unfold after, yield. by destruct (sched w). Qed.

Lemma yield_evolves w : evolves w (after yield w).
Proof.
  unfold after, yield. destruct (sched w) as [| ops rest]; simpl.
  - apply evolves_refl.
  - eapply evolves_trans; [| apply env_steps_evolves]. split; simpl; [lia | auto].
Qed.

Lemma yield_frame w : env_frame w (after yield w).
Proof.
  unfold after, yield. destruct (sched w) as [| ops rest]; simpl.
  - apply env_frame_refl.
  - eapply env_frame_trans; [| apply env_steps_frame]. by repeat split.
Qed.

End Scheduling.

Section Hub.

(** One iteration of the loop of [broadcast_transcript]. *)
Lemma deliver_step client message w :
  ∃ w' e,
    try_except (ws_send client message)
               (fun _ => with_clients_lock (discard_client client)) w
      = (Return tt, w') ∧
    evolves w w' ∧
    net w' = net w ++ [e] ∧ ev_client e = client ∧ ev_message e = message ∧
    (e = SendFail client message → client ∉ connected_clients w').
Proof.
  pose proof (yield_returns w) as Hy.
  pose proof (yield_evolves w) as Hev.
  pose proof (yield_frame w) as (Hnet & _).
  set (w1 := after yield w) in *.
  unfold ws_send. unfold_monad. rewrite Hy.
  destruct (bool_decide (client ∈ conn_down w1)) eqn:Hdown; simpl.
  - pose proof (yield_returns (put_net (SendFail client message) w1)) as Hy2.
    pose proof (yield_evolves (put_net (SendFail client message) w1)) as Hev2.
    pose proof (yield_frame (put_net (SendFail client message) w1)) as (Hnet2 & _).
    set (w2 := after yield _) in *.
    rewrite Hy2. eexists _, (SendFail client message).
    split; [reflexivity |]. simpl. rewrite Hnet2. simpl. rewrite Hnet.
    split; [| split; [done | split; [done | split; [done |]]]].
    + eapply evolves_trans; [exact Hev |].
      eapply evolves_trans; [| eapply evolves_trans; [exact Hev2 |]].
      * split; simpl; [lia | auto].
      * split; simpl; [lia |]. intros c Hc. left.
        apply elem_of_difference in Hc as [? _]. done.
    + intros _ Hin. apply elem_of_difference in Hin as [_ Hin].
      apply Hin. by apply elem_of_singleton.
  - eexists _, (SendOk client message).
    split; [reflexivity |]. simpl. rewrite Hnet.
    split; [| split; [done | split; [done | split; [done |]]]].
    + eapply evolves_trans; [exact Hev |]. split; simpl; [lia | auto].
    + intros ?; discriminate.
Qed.

Lemma send_to_all_spec clients message w :
  ∃ w' evs,
    send_to_all clients message w = (Return tt, w') ∧
    evolves w w' ∧
    net w' = net w ++ evs ∧
    map ev_client evs = clients ∧
    Forall (fun e => ev_message e = message) evs ∧
    (∀ c, SendFail c message ∈ evs → (c < next_conn w)%nat →
          c ∉ connected_clients w').
Proof.
  revert w. induction clients as [| client clients IH]; intros w.
  - exists w, []. simpl. rewrite app_nil_r.
    repeat split; auto using evolves_refl. intros c Hc. by apply elem_of_nil in Hc.
  - destruct (deliver_step client message w)
      as (w1 & e & Hrun & Hev & Hnet & Hcl & Hmsg & Hfail).
    destruct (IH w1) as (w' & evs & Hrun' & Hev' & Hnet' & Hcls & Hmsgs & Hfails).
    exists w', (e :: evs).
    unfold send_to_all in *. simpl. unfold mbind at 1, M_bind at 1.
    rewrite Hrun. split; [exact Hrun' |].
    split; [by eapply evolves_trans |].
    split; [rewrite Hnet', Hnet, <- app_assoc; done |].
    split; [simpl; congruence |].
    split; [by constructor |].
    intros c Hc Hlt. apply elem_of_cons in Hc as [Hc | Hc].
    + subst e. simpl in Hcl. subst c.
      eapply evolves_absent; [exact Hev' | | by apply Hfail].
      destruct Hev as [? _]. lia.
    + apply Hfails; [done |]. destruct Hev as [? _]. lia.
Qed.

Lemma broadcast_empty text is_final w :
  connected_clients w = ∅ → broadcast_transcript text is_final w = (Return tt, w).
Proof.
  intros He. unfold broadcast_transcript. unfold_monad. by rewrite bool_decide_eq_true_2.
Qed.

Lemma broadcast_unfold text is_final w :
  connected_clients w ≠ ∅ →
  broadcast_transcript text is_final w
  = send_to_all (elements (connected_clients (at_snapshot w)))
                (wire_message text is_final w) (at_snapshot w).
Proof.
  intros He. unfold broadcast_transcript, datetime_now, at_snapshot, wire_message.
  unfold_monad. rewrite bool_decide_eq_false_2 by done.
  by rewrite (yield_returns (tick w)).
Qed.

Lemma at_snapshot_evolves w : evolves w (at_snapshot w).
Proof.
  unfold at_snapshot. eapply evolves_trans; [| apply yield_evolves].
  split; simpl; [lia | auto].
Qed.

Lemma at_snapshot_net w : net (at_snapshot w) = net w.
Proof. unfold at_snapshot. by destruct (yield_frame (tick w)) as [-> _]. Qed.

Lemma broadcast_spec text is_final w :
  ∃ w' evs,
    broadcast_transcript text is_final w = (Return tt, w') ∧
    evolves w w' ∧
    net w' = net w ++ evs ∧
    map ev_client evs = elements (snapshot w) ∧
    Forall (fun e => ev_message e = wire_message text is_final w) evs ∧
    (hub_wf w → ∀ c, SendFail c (wire_message text is_final w) ∈ evs →
                     c ∉ connected_clients w').
Proof.
  unfold snapshot. case_bool_decide as He.
  - exists w, []. rewrite broadcast_empty, app_nil_r, elements_empty by done.
    repeat split; auto using evolves_refl.
    intros _ c Hc. by apply elem_of_nil in Hc.
  - destruct (send_to_all_spec (elements (connected_clients (at_snapshot w)))
                (wire_message text is_final w) (at_snapshot w))
      as (w' & evs & Hrun & Hev & Hnet & Hcl & Hmsg & Hfail).
    exists w', evs. rewrite broadcast_unfold by done.
    split; [done |].
    split; [eapply evolves_trans; [apply at_snapshot_evolves | done] |].
    split; [by rewrite Hnet, at_snapshot_net |].
    split; [done |]. split; [done |].
    intros Hwf c Hc. apply Hfail; [done |].
    apply (evolves_wf _ _ (at_snapshot_evolves w) Hwf).
    apply (proj1 (elem_of_elements _ _)). rewrite <- Hcl.
    apply list_elem_of_fmap. by exists (SendFail c (wire_message text is_final w)).
Qed.

Lemma sends_during_eq {A} (m : M A) w r w' evs :
  m w = (r, w') → net w' = net w ++ evs → sends_during m w = evs.
Proof.
  intros Hrun Hnet. unfold sends_during, after. rewrite Hrun. simpl.
  rewrite Hnet. apply drop_app_length.
Qed.

Lemma no_event_for_absent c evs :
  c ∉ map ev_client evs → frames_to c evs = [] ∧ failures_of c evs = [].
Proof.
  induction evs as [| e evs IH]; [done |].
  simpl. intros Hc. apply not_elem_of_cons in Hc as [Hne Hc].
  destruct (IH Hc) as [IH1 IH2]. unfold frames_to, failures_of in *. simpl.
  destruct e as [c' m | c' m]; simpl in *;
    rewrite bool_decide_eq_false_2 by congruence; done.
Qed.

Lemma one_event_for_member c message evs :
  NoDup (map ev_client evs) →
  Forall (fun e => ev_message e = message) evs →
  c ∈ map ev_client evs →
  (frames_to c evs = [message] ∧ failures_of c evs = []) ∨
  (frames_to c evs = [] ∧ failures_of c evs = [message]).
Proof.
  induction evs as [| e evs IH]; simpl.
  - intros _ _ Hc. by apply elem_of_nil in Hc.
  - intros Hnd Hmsg Hc. apply NoDup_cons in Hnd as [Hfresh Hnd].
    apply Forall_cons in Hmsg as [He Hmsg].
    destruct (decide (ev_client e = c)) as [Heq | Hne].
    + subst c. destruct (no_event_for_absent _ _ Hfresh) as [F1 F2].
      unfold frames_to, failures_of in *.
      destruct e as [c' m | c' m]; simpl in *; subst m;
        rewrite bool_decide_eq_true_2 by done; rewrite F1, F2; auto.
    + apply elem_of_cons in Hc as [Hc | Hc]; [congruence |].
      destruct (IH Hnd Hmsg Hc) as [[F1 F2] | [F1 F2]];
        unfold frames_to, failures_of in *;
        destruct e as [c' m | c' m]; simpl in *;
        rewrite bool_decide_eq_false_2 by done; rewrite F1, F2; auto.
Qed.

Lemma failure_event c message evs :
  Forall (fun e => ev_message e = message) evs →
  failures_of c evs ≠ [] → SendFail c message ∈ evs.
Proof.
  induction evs as [| e evs IH]; [done |].
  intros Hmsg Hf. apply Forall_cons in Hmsg as [He Hmsg].
  unfold failures_of in *. simpl in Hf.
  destruct e as [c' m | c' m]; simpl in *.
  - apply elem_of_cons. right. by apply IH.
  - case_bool_decide; subst.
    + apply elem_of_cons. by left.
    + apply elem_of_cons. right. by apply IH.
Qed.

Lemma frame_event c m evs : m ∈ frames_to c evs ↔ SendOk c m ∈ evs.
Proof.
  unfold frames_to. rewrite list_elem_of_omap. split.
  - intros (e & He & Hm). destruct e as [c' m' | c' m']; [| done].
    case_bool_decide; [| done]. by simplify_eq.
  - intros He. exists (SendOk c m). split; [done |].
    by rewrite bool_decide_eq_true_2.
Qed.

(** Every member of the snapshot is sent to once, nobody else is. *)
Lemma snapshot_member_sent_once text is_final w c :
  c ∈ snapshot w →
  let evs := sends_during (broadcast_transcript text is_final) w in
  let message := wire_message text is_final w in
  (frames_to c evs = [message] ∧ failures_of c evs = []) ∨
  (frames_to c evs = [] ∧ failures_of c evs = [message]).
Proof.
  intros Hc.
  destruct (broadcast_spec text is_final w)
    as (w' & evs & Hrun & _ & Hnet & Hcl & Hmsg & _).
  rewrite (sends_during_eq _ _ _ _ _ Hrun Hnet). simpl.
  apply one_event_for_member; [| done |].
  - rewrite Hcl. apply NoDup_elements.
  - rewrite Hcl. by apply elem_of_elements.
Qed.

Lemma snapshot_outsider_not_sent text is_final w c :
  c ∉ snapshot w →
  let evs := sends_during (broadcast_transcript text is_final) w in
  frames_to c evs = [] ∧ failures_of c evs = [].
Proof.
  intros Hc.
  destruct (broadcast_spec text is_final w)
    as (w' & evs & Hrun & _ & Hnet & Hcl & _ & _).
  rewrite (sends_during_eq _ _ _ _ _ Hrun Hnet). simpl.
  apply no_event_for_absent. rewrite Hcl. by rewrite elem_of_elements.
Qed.

End Hub.

Example demo_hub_publish :
  sends_during (broadcast_transcript "hello" false) demo_hub
  = [SendOk 1%nat (wire_message "hello" false demo_hub);
     SendFail 0%nat (wire_message "hello" false demo_hub)]
  ∧ elements (connected_clients (after (broadcast_transcript "hello" false) demo_hub))
    = [2%nat; 1%nat].
Proof. vm_compute. done. Qed.

Section FanOut.

(** C2 (fan-out completeness).  In every publish, each subscriber of the
    snapshot is sent to exactly once: either its send succeeds and it receives
    exactly one frame, the serialized event, or its send fails and it receives
    nothing.  A subscriber outside the snapshot (in particular one registered
    after the copy was taken) is never sent to and receives nothing. *)
Theorem broadcast_fan_out (text : string) (is_final : bool) (w : World) (c : Client) :
  let evs := sends_during (broadcast_transcript text is_final) w in
  let message := wire_message text is_final w in
  (c ∈ snapshot w →
     (frames_to c evs = [message] ∧ failures_of c evs = []) ∨
     (frames_to c evs = [] ∧ failures_of c evs = [message])) ∧
  (c ∉ snapshot w → frames_to c evs = [] ∧ failures_of c evs = []).
Proof.
  split.
  - apply snapshot_member_sent_once.
  - apply snapshot_outsider_not_sent.
Qed.

Lemma broadcast_fan_out_witness :
  frames_to 1%nat (sends_during (broadcast_transcript "hello" false) demo_hub)
    = [wire_message "hello" false demo_hub] ∧
  (2%nat ∈ connected_clients (after (broadcast_transcript "hello" false) demo_hub) ∧
   frames_to 2%nat (sends_during (broadcast_transcript "hello" false) demo_hub) = []).
Proof.
  split.
  - destruct (proj1 (broadcast_fan_out "hello" false demo_hub 1%nat)) as [[H _] | [H _]].
    + vm_compute. reflexivity.
    + exact H.
    + vm_compute in H. discriminate H.
  - split; [vm_compute; reflexivity |].
    apply (proj2 (broadcast_fan_out "hello" false demo_hub 2%nat)).
    vm_compute. discriminate.
Defined.

(** C3 (failure isolation).  When the send to subscriber [s] fails during a
    publish, the publish still returns normally, [s] is no longer in the
    subscriber set when it returns, and every other subscriber [t] of the
    snapshot is still sent the event: [t] receives it unless its own send
    fails. *)
Theorem broadcast_failure_isolated (text : string) (is_final : bool) (w : World)
    (s : Client) :
  hub_wf w →
  let evs := sends_during (broadcast_transcript text is_final) w in
  let message := wire_message text is_final w in
  failures_of s evs ≠ [] →
  (outcome (broadcast_transcript text is_final) w = Return tt) ∧
  (s ∉ connected_clients (after (broadcast_transcript text is_final) w)) ∧
  ∀ t, t ∈ snapshot w → t ≠ s →
       (frames_to t evs = [message] ∧ failures_of t evs = []) ∨
       (frames_to t evs = [] ∧ failures_of t evs = [message]).
Proof.
  intros Hwf.
  destruct (broadcast_spec text is_final w)
    as (w' & evs & Hrun & _ & Hnet & Hcl & Hmsg & Hfail).
  rewrite (sends_during_eq _ _ _ _ _ Hrun Hnet). unfold outcome, after.
  rewrite Hrun. simpl. intros Hs. split; [done |]. split.
  - apply (Hfail Hwf). by apply failure_event.
  - intros t Ht _.
    pose proof (snapshot_member_sent_once text is_final w t Ht) as Hsent.
    by rewrite (sends_during_eq _ _ _ _ _ Hrun Hnet) in Hsent.
Qed.

Lemma demo_hub_wf : hub_wf demo_hub.
Proof.
  intros c Hc. simpl in Hc.
  apply elem_of_union in Hc as [Hc | Hc]; apply elem_of_singleton in Hc; subst; simpl; lia.
Defined.

Lemma broadcast_failure_isolated_witness :
  (outcome (broadcast_transcript "hello" false) demo_hub = Return tt) ∧
  (0%nat ∉ connected_clients (after (broadcast_transcript "hello" false) demo_hub)) ∧
  frames_to 1%nat (sends_during (broadcast_transcript "hello" false) demo_hub)
    = [wire_message "hello" false demo_hub].
Proof.
  assert (failures_of 0%nat (sends_during (broadcast_transcript "hello" false) demo_hub) ≠ [])
    as Hfail by (vm_compute; discriminate).
  destruct (broadcast_failure_isolated "hello" false demo_hub 0%nat demo_hub_wf Hfail)
    as (Hret & Hgone & Hothers).
  split; [exact Hret |]. split; [exact Hgone |].
  destruct (Hothers 1%nat) as [[H _] | [H _]].
  - vm_compute. reflexivity.
  - lia.
  - exact H.
  - vm_compute in H. discriminate H.
Defined.

End FanOut.

Section Payload.

Lemma fmt_02d_two_digits n :
  0 <= n < 100 →
  ∃ a b, fmt_02d n = String a (String b EmptyString) ∧
         is_digit a = true ∧ is_digit b = true.
Proof.
  intros Hn. rewrite <- (Z2Nat.id n) by lia.
  assert (Z.to_nat n < 100)%nat as Hk by lia.
  generalize dependent (Z.to_nat n). clear. intros k Hk.
  do 100 (destruct k as [| k]; [vm_compute; eauto |]). lia.
Qed.

Lemma strftime_HMS_shape d : valid_time d → is_HMS (strftime_HMS d) = true.
Proof.
  intros (Hh & Hm & Hs). unfold strftime_HMS.
  destruct (fmt_02d_two_digits (hour d)) as (h1 & h2 & -> & Hh1 & Hh2); [lia |].
  destruct (fmt_02d_two_digits (minute d)) as (m1 & m2 & -> & Hm1 & Hm2); [lia |].
  destruct (fmt_02d_two_digits (second d)) as (s1 & s2 & -> & Hs1 & Hs2); [lia |].
  simpl. rewrite Hh1, Hh2, Hm1, Hm2, Hs1, Hs2. reflexivity.
Qed.

(** C4 (one payload per publish).  All frames delivered by one publish are the
    same text: the JSON encoding of a dict with exactly the keys [text] (the
    string passed in), [is_final] (the boolean passed in) and [timestamp] (a
    string), the timestamp being the clock value read by this publish,
    formatted as [HH:MM:SS]. *)
Theorem broadcast_payload_identical (text : string) (is_final : bool) (w : World) :
  valid_time (clock w (clock_reads w)) →
  let timestamp := strftime_HMS (clock w (clock_reads w)) in
  let message := json_dumps [("text", JStr text); ("is_final", JBool is_final);
                             ("timestamp", JStr timestamp)] in
  is_HMS timestamp = true ∧
  ∀ c m, SendOk c m ∈ sends_during (broadcast_transcript text is_final) w →
         m = message.
Proof.
  intros Hvalid. simpl. split; [by apply strftime_HMS_shape |].
  destruct (broadcast_spec text is_final w)
    as (w' & evs & Hrun & _ & Hnet & _ & Hmsg & _).
  rewrite (sends_during_eq _ _ _ _ _ Hrun Hnet).
  intros c m Hin. rewrite Forall_forall in Hmsg.
  apply (Hmsg _ Hin).
Qed.

Lemma broadcast_payload_identical_witness :
  is_HMS "07:05:00" = true ∧
  ∀ c m, SendOk c m ∈ sends_during (broadcast_transcript "hello" false) demo_hub →
         m = json_dumps [("text", JStr "hello"); ("is_final", JBool false);
                         ("timestamp", JStr "07:05:00")].
Proof.
  apply (broadcast_payload_identical "hello" false demo_hub).
  vm_compute. repeat split; discriminate.
Defined.

End Payload.

Section Registry.

Lemma set_clients_same w : set_clients (connected_clients w) w = w.
Proof. by destruct w. Qed.

(** C6 (idempotent unregister).  Discarding a connection that is not in the
    subscriber set returns normally and changes nothing: the set, and with it
    every other member, is as before.  This holds for the discard of
    [broadcast_transcript] and for the one in the [finally] part of
    [websocket_handler]. *)
Theorem discard_absent_is_noop (s : Client) (w : World) :
  s ∉ connected_clients w →
  discard_client s w = (Return tt, w) ∧
  ∀ err, connected_clients (handler_exit s err w) = connected_clients w.
Proof.
  intros Hs.
  assert (connected_clients w ∖ {[s]} = connected_clients w) as Heq.
  { apply set_eq. intros x. rewrite elem_of_difference, elem_of_singleton.
    split; [by intros [? _] | intros Hx; split; [done | by intros ->]]. }
  split.
  - unfold discard_client, modify. by rewrite Heq, set_clients_same.
  - intros [e |]; simpl; exact Heq.
Qed.

Lemma discard_absent_is_noop_witness :
  discard_client 7%nat demo_hub = (Return tt, demo_hub) ∧
  ∀ err, connected_clients (handler_exit 7%nat err demo_hub)
         = connected_clients demo_hub.
Proof.
  apply (discard_absent_is_noop 7%nat demo_hub). vm_compute. discriminate.
Defined.

Lemma filter_eq_NoDup (c : Client) (l : list Client) :
  NoDup l → (length (filter (fun x => x = c) l) ≤ 1)%nat.
Proof.
  induction 1 as [| x l Hx Hnd IH]; [simpl; lia |].
  rewrite filter_cons. case_decide as Heq; [| exact IH].
  subst x. simpl.
  assert (filter (fun x => x = c) l = []) as ->; [| simpl; lia].
  apply elem_of_nil_inv. intros y Hy.
  apply list_elem_of_filter in Hy as [-> Hy]. done.
Qed.

Lemma filter_eq_member (c : Client) (l : list Client) :
  c ∈ l → (1 ≤ length (filter (fun x => x = c) l))%nat.
Proof.
  intros Hc.
  assert (c ∈ filter (fun x => x = c) l) as Hin by (by apply list_elem_of_filter).
  destruct (filter (fun x => x = c) l); [by apply elem_of_nil in Hin | simpl; lia].
Qed.

(** C7 (a handle is registered at most once).  After any sequence of hub
    operations, started in any state, iterating the subscriber set meets every
    handle at most once.  Registering a handle a second time leaves the state
    exactly as the first registration left it, with the handle in the set
    once. *)
Theorem hub_handles_are_unique (ops : list HubOp) (w : World) (c : Client) :
  (occurrences c (connected_clients (after (for_each ops hub_op) w)) ≤ 1)%nat ∧
  after (add_client c ;; add_client c) w = after (add_client c) w ∧
  occurrences c (connected_clients (after (add_client c ;; add_client c) w)) = 1%nat.
Proof.
  split; [apply filter_eq_NoDup, NoDup_elements |].
  assert (after (add_client c ;; add_client c) w = after (add_client c) w) as Heq.
  { unfold_monad. simpl. unfold set_clients. simpl. f_equal.
    apply set_eq. intros x. rewrite !elem_of_union. tauto. }
  split; [exact Heq |]. rewrite Heq.
  apply Nat.le_antisymm; [apply filter_eq_NoDup, NoDup_elements |].
  apply filter_eq_member, elem_of_elements. unfold_monad. simpl.
  apply elem_of_union. left. by apply elem_of_singleton.
Qed.

End Registry.

Section Logger.

Lemma str_app_assoc (a b c : string) : (a +:+ b) +:+ c = a +:+ (b +:+ c).
Proof.
  induction a as [| x a IH]; [reflexivity |]. exact (f_equal (String x) IH).
Qed.

Lemma str_app_nil_r (a : string) : a +:+ EmptyString = a.
Proof.
  induction a as [| x a IH]; [reflexivity |]. exact (f_equal (String x) IH).
Qed.

Lemma log_transcript_before_open text is_final w :
  session_file w = None → log_transcript text is_final w = (Return tt, w).
Proof. intros Hf. unfold log_transcript. unfold_monad. by rewrite Hf. Qed.

Lemma log_transcript_closed text is_final w f :
  session_file w = Some f → f_closed f = true →
  log_transcript text is_final w = (Raise closed_file_error, tick w).
Proof.
  intros Hf Hc. unfold log_transcript, datetime_now, session_file_write.
  unfold_monad. rewrite Hf. simpl. by rewrite Hf, Hc.
Qed.

Lemma log_transcript_open text is_final w name :
  session_open name w →
  ∃ w', log_transcript text is_final w = (Return tt, w') ∧
        session_open name w' ∧
        stored name w' =
          stored name w +:+
          block_format (strftime_HMS (clock w (clock_reads w)))
                       (if is_final then "FINAL" else "PARTIAL") text ∧
        (∀ other, other ≠ name → fs_files w' !! other = fs_files w !! other) ∧
        clock w' = clock w ∧ clock_reads w' = S (clock_reads w) ∧
        net w' = net w ∧ connected_clients w' = connected_clients w.
Proof.
  intros Hopen. unfold session_open in Hopen.
  unfold log_transcript, datetime_now, session_file_write, session_file_flush.
  unfold_monad. rewrite Hopen. simpl. rewrite Hopen. simpl.
  eexists. split; [reflexivity |]. simpl.
  split; [done |]. split.
  - unfold stored, flush_to_storage. simpl. rewrite lookup_insert_eq. simpl.
    f_equal. unfold block_format, status_tag.
    destruct is_final; by rewrite !str_app_assoc.
  - split; [| done]. intros other Hne. by rewrite lookup_insert_ne.
Qed.

Lemma log_calls_spec calls w name :
  session_open name w →
  ∃ w', log_calls calls w = (Return tt, w') ∧
        session_open name w' ∧
        stored name w' = stored name w +:+ log_blocks (clock w) (clock_reads w) calls.
Proof.
  revert w. induction calls as [| [text is_final] calls IH]; intros w Hopen.
  - exists w. simpl. by rewrite str_app_nil_r.
  - destruct (log_transcript_open text is_final w name Hopen)
      as (w1 & Hrun & Hopen1 & Hst & _ & Hclk & Hreads & _).
    destruct (IH w1 Hopen1) as (w' & Hrun' & Hopen' & Hst').
    exists w'. unfold log_calls in *. simpl. unfold mbind at 1, M_bind at 1.
    simpl. rewrite Hrun. split; [exact Hrun' |]. split; [done |].
    rewrite Hst', Hst, Hclk, Hreads. by rewrite str_app_assoc.
Qed.

(** C8 (log append order).  During an open session, after each call of a
    sequence of [log_transcript] calls the stored file is what it was before
    the sequence followed by one block per call made so far, in the order of
    the calls.  A block is [[HH:MM:SS] [TAG]], a line break, [Text: ] and the
    text, and two line breaks; [TAG] is [FINAL] when [is_final] is true and
    [PARTIAL] otherwise; the time is the clock value read by that call.
    Nothing is left in the buffer of the file object when a call returns. *)
Theorem log_append_order (calls : list (string * bool)) (w : World)
    (name : string) (k : nat) :
  session_open name w →
  let done := take k calls in
  let w' := after (log_calls done) w in
  outcome (log_calls done) w = Return tt ∧
  stored name w' = stored name w +:+ log_blocks (clock w) (clock_reads w) done ∧
  session_file w' = Some (mkFile name EmptyString false).
Proof.
  intros Hopen. simpl.
  destruct (log_calls_spec (take k calls) w name Hopen) as (w' & Hrun & Hopen' & Hst).
  unfold outcome, after. rewrite Hrun. simpl. done.
Qed.

Lemma log_append_order_witness :
  stored "transcripts/transcription_20240309_070500.txt"
         (after (log_calls [("hello", false); ("hello world", true)]) demo_session)
  = stored "transcripts/transcription_20240309_070500.txt" demo_session +:+
    ("[07:05:01] [PARTIAL]" +:+ nl +:+ "Text: hello" +:+ nl +:+ nl +:+
     "[07:05:02] [FINAL]" +:+ nl +:+ "Text: hello world" +:+ nl +:+ nl).
Proof.
  refine (proj1 (proj2 (log_append_order
            [("hello", false); ("hello world", true)] demo_session
            "transcripts/transcription_20240309_070500.txt" 2 _))).
  vm_compute. reflexivity.
Defined.

Lemma create_session_file_spec w :
  let start := clock w (clock_reads w) in
  ∃ w', create_session_file w = (Return (session_filename start), w') ∧
        session_open (session_filename start) w' ∧
        session_start_time w' = Some start ∧
        fs_files w' = <[session_filename start := session_header start]> (fs_files w).
Proof.
  simpl. unfold create_session_file, os_makedirs, datetime_now, open_w,
    session_file_write, session_file_flush.
  unfold_monad. simpl. eexists. split; [reflexivity |]. simpl.
  split; [done |]. split; [done |].
  unfold flush_to_storage, stored. simpl.
  rewrite lookup_insert_eq, insert_insert_eq. simpl.
  reflexivity.
Qed.

(** C10 (the session file is opened truncating).  [create_session_file]
    returns the path [transcripts/transcription_YYYYMMDD_HHMMSS.txt] built
    from the clock value it reads; the path does not depend on the sub-second
    part of that value.  Whatever the file at that path held before, the call
    is not rejected and the file then holds the header of the new session and
    nothing else. *)
Theorem create_session_file_truncates (w : World) (old : string) :
  let start := clock w (clock_reads w) in
  let name := "transcripts/transcription_" +:+ strftime_compact start +:+ ".txt" in
  fs_files w !! name = Some old →
  outcome create_session_file w = Return name ∧
  fs_files (after create_session_file w) !! name = Some (session_header start) ∧
  ∀ us, session_filename (with_microsecond start us) = name.
Proof.
  intros start name _. subst start name.
  destruct (create_session_file_spec w) as (w' & Hrun & _ & _ & Hfs).
  unfold outcome, after. rewrite Hrun. cbn [fst snd].
  split; [done |]. split; [| done].
  rewrite Hfs. apply lookup_insert_eq.
Qed.

Lemma create_session_file_truncates_witness :
  stored "transcripts/transcription_20240309_070500.txt" restarted
    = session_header (same_second_clock 0) +:+
      ("[07:05:00] [FINAL]" +:+ nl +:+ "Text: hello" +:+ nl +:+ nl) ∧
  outcome create_session_file restarted
    = Return "transcripts/transcription_20240309_070500.txt" ∧
  stored "transcripts/transcription_20240309_070500.txt"
         (after create_session_file restarted)
    = session_header (same_second_clock 2).
Proof.
  split; [vm_compute; reflexivity |].
  destruct (create_session_file_truncates restarted
              (session_header (same_second_clock 0) +:+
               ("[07:05:00] [FINAL]" +:+ nl +:+ "Text: hello" +:+ nl +:+ nl)))
    as (Hret & Hfs & _).
  - vm_compute. reflexivity.
  - split; [exact Hret |]. unfold stored.
    change "transcripts/transcription_20240309_070500.txt"
      with ("transcripts/transcription_" +:+
            strftime_compact (clock restarted (clock_reads restarted)) +:+ ".txt").
    rewrite Hfs. reflexivity.
Defined.

End Logger.

Section Lifecycle.

Lemma close_session_file_closes w name start log_filename :
  session_open name w → session_start_time w = Some start →
  ∃ w', close_session_file log_filename w = (Return tt, w') ∧
        session_file w' = Some (mkFile name EmptyString true) ∧
        stored name w' =
          stored name w +:+ session_footer start (clock w (clock_reads w)).
Proof.
  intros Hopen Hstart. unfold session_open in Hopen.
  unfold close_session_file, datetime_now, session_file_write, session_file_close.
  unfold_monad. rewrite Hopen. simpl. rewrite Hstart. simpl.
  rewrite Hopen. simpl.
  eexists. split; [reflexivity |]. simpl. split; [done |].
  unfold stored, flush_to_storage. simpl. rewrite lookup_insert_eq. simpl.
  reflexivity.
Qed.

(** Once the shutdown path has run, the global still holds the closed file
    object, and a call of [log_transcript] raises. *)
Lemma log_transcript_after_close text is_final w name start log_filename :
  session_open name w → session_start_time w = Some start →
  outcome (log_transcript text is_final) (after (close_session_file log_filename) w)
  = Raise closed_file_error.
Proof.
  intros Hopen Hstart.
  destruct (close_session_file_closes w name start log_filename Hopen Hstart)
    as (w' & Hrun & Hfile & _).
  unfold after at 1. rewrite Hrun. simpl. unfold outcome.
  by rewrite (log_transcript_closed text is_final w' _ Hfile).
Qed.

(** C1 (logger outside the session window), evaluated after the close.  The
    session is created and then closed as the main program does; the next
    call of [log_transcript] raises [ValueError] (the file system is left as
    it was). *)
Theorem log_transcript_after_close_raises :
  outcome (log_transcript "late" true) demo_closed
    = Raise (ValueError "I/O operation on closed file.") ∧
  fs_files (after (log_transcript "late" true) demo_closed) = fs_files demo_closed.
Proof. split; vm_compute; reflexivity. Qed.

(** [on_text] does the same three things on both of its paths. *)
Lemma on_text_dispatch text is_final :
  on_text text is_final
  = (print (callback_label is_final +:+ text) ;;
     log_transcript text is_final ;;
     asyncio_run (broadcast_transcript text is_final)).
Proof. by destruct is_final. Qed.

Lemma log_transcript_hub text is_final w :
  net (after (log_transcript text is_final) w) = net w ∧
  connected_clients (after (log_transcript text is_final) w) = connected_clients w.
Proof.
  unfold log_transcript, datetime_now, session_file_write, session_file_flush.
  unfold_monad. destruct (session_file w) as [[name buf closed] |] eqn:Hf; [| done].
  simpl. rewrite Hf. simpl. by destruct closed.
Qed.

Lemma publish_start_hub text is_final w :
  net (publish_start text is_final w) = net w ∧
  connected_clients (publish_start text is_final w) = connected_clients w.
Proof.
  unfold publish_start. unfold_monad. simpl.
  destruct (log_transcript_hub text is_final
              (put_stdout (callback_label is_final +:+ text) w)) as [Hn Hc].
  unfold after in Hn, Hc.
  destruct (log_transcript text is_final _) as [[[] | e] w1]; simpl in *; done.
Qed.

(** When the log call returns, the callback goes on with the publish. *)
Lemma on_text_returns text is_final w :
  outcome (on_text text is_final) w = Return tt →
  on_text text is_final w
  = broadcast_transcript text is_final (publish_start text is_final w).
Proof.
  rewrite on_text_dispatch. unfold publish_start. unfold_monad. simpl.
  destruct (log_transcript text is_final _) as [[[] | e] w1]; simpl; [done |].
  discriminate.
Qed.

Lemma log_transcript_returns text is_final w :
  (∀ f, session_file w = Some f → f_closed f = false) →
  outcome (log_transcript text is_final) w = Return tt.
Proof.
  intros Hopen.
  unfold log_transcript, datetime_now, session_file_write, session_file_flush.
  unfold_monad.
  destruct (session_file w) as [[name buf closed] |] eqn:Hf; [| done].
  specialize (Hopen _ eq_refl). simpl in Hopen. subst closed.
  simpl. rewrite Hf. reflexivity.
Qed.

(** Before the session is created and while it is open, the callback logs
    (or skips the log) and then publishes, on either path. *)
Lemma on_text_in_session text is_final w :
  (∀ f, session_file w = Some f → f_closed f = false) →
  on_text text is_final w
  = broadcast_transcript text is_final (publish_start text is_final w).
Proof.
  intros Hopen. rewrite on_text_dispatch. unfold publish_start.
  pose proof (log_transcript_returns text is_final
                (put_stdout (callback_label is_final +:+ text) w) Hopen) as Hret.
  unfold_monad. simpl in *.
  destruct (log_transcript text is_final _) as [[[] | e] w1]; simpl in *;
    [done | discriminate].
Qed.

(** When the log call raises, no publish is started. *)
Lemma on_text_log_raises text is_final w e :
  outcome (log_transcript text is_final)
          (put_stdout (callback_label is_final +:+ text) w) = Raise e →
  outcome (on_text text is_final) w = Raise e ∧
  sends_during (on_text text is_final) w = [].
Proof.
  intros Hlog. rewrite on_text_dispatch.
  destruct (log_transcript_hub text is_final
              (put_stdout (callback_label is_final +:+ text) w)) as [Hn _].
  unfold sends_during. unfold_monad. simpl in *.
  destruct (log_transcript text is_final _) as [[[] | e'] w1]; simpl in *;
    [discriminate |].
  split; [done |]. rewrite Hn. by rewrite drop_all.
Qed.

(** C5 as stated fails: with subscribers registered, the callback returns
    only after their sends have been awaited. *)
Lemma on_text_not_fire_and_forget : ¬ fire_and_forget "hello" false demo_hub.
Proof. unfold fire_and_forget. vm_compute. discriminate. Qed.

(** C5, amended.  [on_text] runs the publish with [asyncio.run], to
    completion and on its own thread: when the callback returns, the send to
    every subscriber of the snapshot has already been awaited, and has either
    delivered the frame or failed. *)
Theorem on_text_waits_for_delivery (text : string) (is_final : bool) (w : World)
    (c : Client) :
  outcome (on_text text is_final) w = Return tt →
  c ∈ snapshot (publish_start text is_final w) →
  let evs := sends_during (on_text text is_final) w in
  let message := wire_message text is_final (publish_start text is_final w) in
  (frames_to c evs = [message] ∧ failures_of c evs = []) ∨
  (frames_to c evs = [] ∧ failures_of c evs = [message]).
Proof.
  intros Hret Hc.
  assert (sends_during (on_text text is_final) w
          = sends_during (broadcast_transcript text is_final)
                         (publish_start text is_final w)) as ->.
  { unfold sends_during, after. rewrite (on_text_returns _ _ _ Hret).
    by destruct (publish_start_hub text is_final w) as [-> _]. }
  by apply snapshot_member_sent_once.
Qed.

Lemma on_text_waits_for_delivery_witness :
  frames_to 1%nat (sends_during (on_text "hello" false) demo_hub)
  = [wire_message "hello" false (publish_start "hello" false demo_hub)].
Proof.
  destruct (on_text_waits_for_delivery "hello" false demo_hub 1%nat)
    as [[H _] | [H _]].
  - vm_compute. reflexivity.
  - vm_compute. reflexivity.
  - exact H.
  - vm_compute in H. discriminate H.
Defined.

(** C9 (one log call and one publish per callback), evaluated after the
    close.  The log call raises, the callback ends with that exception and
    never starts the publish: the registered subscriber, which a publish
    started in the same state would reach, is sent nothing. *)
Theorem on_text_after_close_skips_publish :
  outcome (on_text "late" false) demo_closed_with_subscriber
    = Raise (ValueError "I/O operation on closed file.") ∧
  sends_during (on_text "late" false) demo_closed_with_subscriber = [] ∧
  sends_during (broadcast_transcript "late" false) demo_closed_with_subscriber
    = [SendOk 0%nat (wire_message "late" false demo_closed_with_subscriber)].
Proof. repeat split; vm_compute; reflexivity. Qed.


Lemma hub_wf_yield w : hub_wf w → hub_wf (after yield w).
Proof. apply evolves_wf, yield_evolves. Qed.




End Lifecycle.

(** * Further properties of the module *)

Section PublishEffects.

Lemma logger_frame_refl w : logger_frame w w.
Proof. by repeat split. Qed.

Lemma logger_frame_trans w1 w2 w3 :
  logger_frame w1 w2 → logger_frame w2 w3 → logger_frame w1 w3.
Proof. unfold logger_frame. intros Ha Hb. destruct_and!. repeat split; congruence. Qed.

Lemma env_frame_logger w w' : env_frame w w' → logger_frame w w'.
Proof. unfold env_frame, logger_frame. intros H. destruct_and!. by repeat split. Qed.

Lemma deliver_logger client message w :
  let w' := after (try_except (ws_send client message)
                     (fun _ => with_clients_lock (discard_client client))) w in
  logger_frame w w' ∧ clock_reads w' = clock_reads w.
Proof.
  pose proof (yield_returns w) as Hy.
  pose proof (yield_frame w) as Hf.
  set (w1 := after yield w) in *.
  unfold ws_send. unfold_monad. rewrite Hy.
  destruct (bool_decide (client ∈ conn_down w1)) eqn:Hdown; simpl.
  - pose proof (yield_returns (put_net (SendFail client message) w1)) as Hy2.
    pose proof (yield_frame (put_net (SendFail client message) w1)) as Hf2.
    set (w2 := after yield _) in *. rewrite Hy2. simpl.
    destruct Hf as (_ & ? & ? & ? & ? & ? & ?).
    destruct Hf2 as (_ & ? & ? & ? & ? & ? & ?). simpl in *.
    unfold logger_frame. simpl. repeat split; congruence.
  - destruct Hf as (_ & ? & ? & ? & ? & ? & ?).
    unfold logger_frame. simpl. repeat split; congruence.
Qed.

Lemma send_to_all_cons client clients message w w1 :
  try_except (ws_send client message)
             (fun _ => with_clients_lock (discard_client client)) w
    = (Return tt, w1) →
  send_to_all (client :: clients) message w = send_to_all clients message w1.
Proof.
  intros Hrun. unfold send_to_all. simpl. unfold mbind at 1, M_bind at 1.
  by rewrite Hrun.
Qed.

Lemma send_to_all_logger clients message w :
  logger_frame w (after (send_to_all clients message) w) ∧
  clock_reads (after (send_to_all clients message) w) = clock_reads w.
Proof.
  revert w. induction clients as [| client clients IH]; intros w.
  - split; [apply logger_frame_refl | done].
  - destruct (deliver_step client message w) as (w1 & e & Hrun & _).
    pose proof (deliver_logger client message w) as [Hf Hr].
    unfold after in Hf, Hr. rewrite Hrun in Hf, Hr. simpl in Hf, Hr.
    destruct (IH w1) as [Hf' Hr'].
    unfold after in *. rewrite (send_to_all_cons _ _ _ _ _ Hrun).
    split; [by eapply logger_frame_trans | congruence].
Qed.

Lemma broadcast_logger text is_final w :
  logger_frame w (after (broadcast_transcript text is_final) w) ∧
  (clock_reads w ≤ clock_reads (after (broadcast_transcript text is_final) w)
     ≤ S (clock_reads w))%nat.
Proof.
  destruct (decide (connected_clients w = ∅)) as [He | He].
  - unfold after. rewrite broadcast_empty by done. simpl.
    split; [apply logger_frame_refl | lia].
  - unfold after. rewrite broadcast_unfold by done.
    pose proof (send_to_all_logger (elements (connected_clients (at_snapshot w)))
                  (wire_message text is_final w) (at_snapshot w)) as [Hf Hr].
    unfold after in Hf, Hr. rewrite Hr.
    assert (logger_frame w (at_snapshot w) ∧ clock_reads (at_snapshot w) = S (clock_reads w))
      as [Hf0 Hr0].
    { unfold at_snapshot. destruct (yield_frame (tick w)) as (_ & ? & ? & ? & ? & ? & ?).
      unfold logger_frame. simpl in *. repeat split; congruence. }
    split; [by eapply logger_frame_trans | lia].
Qed.

(** X1.  A publish never raises, whatever happens to the connections, and it
    leaves the session log alone: the file object, the start time and the
    file system are as before. *)
Theorem broadcast_never_raises (text : string) (is_final : bool) (w : World) :
  let w' := after (broadcast_transcript text is_final) w in
  outcome (broadcast_transcript text is_final) w = Return tt ∧
  session_file w' = session_file w ∧
  session_start_time w' = session_start_time w ∧
  fs_files w' = fs_files w ∧ fs_dirs w' = fs_dirs w.
Proof.
  simpl. destruct (broadcast_spec text is_final w) as (w' & evs & Hrun & _).
  destruct (broadcast_logger text is_final w) as [(? & ? & ? & ? & _) _].
  unfold outcome. rewrite Hrun. done.
Qed.

(** X2.  A publish calls [send] once for each member of the snapshot and for
    nobody else: the number of calls is the size of the snapshot. *)
Theorem broadcast_send_count (text : string) (is_final : bool) (w : World) :
  length (sends_during (broadcast_transcript text is_final) w) = size (snapshot w) ∧
  ∀ e, e ∈ sends_during (broadcast_transcript text is_final) w →
       ev_client e ∈ snapshot w.
Proof.
  destruct (broadcast_spec text is_final w)
    as (w' & evs & Hrun & _ & Hnet & Hcl & _).
  rewrite (sends_during_eq _ _ _ _ _ Hrun Hnet). split.
  - unfold size, set_size. simpl. rewrite <- Hcl. by rewrite length_map.
  - intros e He. apply elem_of_elements. rewrite <- Hcl.
    apply list_elem_of_fmap. by exists e.
Qed.

Lemma yield_quiet w : sched w = [] → yield w = (Return tt, w).
Proof. intros Hs. unfold yield. by rewrite Hs. Qed.

Lemma send_to_all_quiet clients message w :
  sched w = [] →
  ∃ w', send_to_all clients message w = (Return tt, w') ∧
        sched w' = [] ∧ conn_down w' = conn_down w ∧
        net w' = net w ++ map (send_event (conn_down w) message) clients ∧
        connected_clients w' =
          connected_clients w ∖ (list_to_set clients ∩ conn_down w).
Proof.
  revert w. induction clients as [| client clients IH]; intros w Hs.
  - exists w. simpl. rewrite app_nil_r. repeat split; try done.
    apply set_eq. intros x. rewrite elem_of_difference, elem_of_intersection.
    rewrite elem_of_empty. tauto.
  - unfold send_to_all in *. simpl. unfold mbind at 1, M_bind at 1.
    unfold ws_send, send_event at 1. unfold_monad. rewrite (yield_quiet w Hs).
    destruct (bool_decide (client ∈ conn_down w)) eqn:Hdown; simpl.
    + rewrite yield_quiet by done. simpl.
      destruct (IH (set_clients (connected_clients w ∖ {[client]})
                      (put_net (SendFail client message) w)))
        as (w' & Hrun & Hs' & Hd' & Hnet' & Hcc'); [done |].
      exists w'. split; [exact Hrun |]. simpl in *.
      split; [done |]. split; [done |].
      split; [by rewrite Hnet', <- app_assoc |].
      rewrite Hcc'. apply bool_decide_eq_true_1 in Hdown.
      apply set_eq. intros x.
      rewrite !elem_of_difference, !elem_of_intersection, elem_of_union,
        !elem_of_singleton.
      destruct (decide (x = client)) as [-> | Hne]; tauto.
    + destruct (IH (put_net (SendOk client message) w))
        as (w' & Hrun & Hs' & Hd' & Hnet' & Hcc'); [done |].
      exists w'. split; [exact Hrun |]. simpl in *.
      split; [done |]. split; [done |].
      split; [by rewrite Hnet', <- app_assoc |].
      rewrite Hcc'. apply bool_decide_eq_false_1 in Hdown.
      apply set_eq. intros x.
      rewrite !elem_of_difference, !elem_of_intersection, elem_of_union,
        !elem_of_singleton.
      destruct (decide (x = client)) as [-> | Hne]; tauto.
Qed.

(** X3.  With the other thread idle, a publish sends to exactly the
    registered subscribers, in the order the set is iterated: the open
    connections get the frame, the ones that are down fail and are
    unregistered, and nobody else leaves the set. *)
Theorem quiet_publish (text : string) (is_final : bool) (w : World) :
  sched w = [] →
  let w' := after (broadcast_transcript text is_final) w in
  sends_during (broadcast_transcript text is_final) w
    = map (send_event (conn_down w) (wire_message text is_final w))
          (elements (connected_clients w)) ∧
  connected_clients w' = connected_clients w ∖ conn_down w.
Proof.
  intros Hs. simpl.
  destruct (decide (connected_clients w = ∅)) as [He | He].
  - unfold sends_during, after. rewrite broadcast_empty by done. simpl.
    rewrite He, elements_empty, drop_all. split; [done |].
    apply set_eq. intros x. rewrite elem_of_difference, elem_of_empty. tauto.
  - assert (at_snapshot w = tick w) as Hsnap.
    { unfold at_snapshot, after. by rewrite yield_quiet. }
    destruct (send_to_all_quiet (elements (connected_clients w))
                (wire_message text is_final w) (tick w) Hs)
      as (w' & Hrun & _ & _ & Hnet & Hcc).
    assert (broadcast_transcript text is_final w = (Return tt, w')) as Hb.
    { rewrite broadcast_unfold by done. by rewrite Hsnap. }
    rewrite (sends_during_eq _ _ _ _ _ Hb Hnet). unfold after. rewrite Hb.
    split; [done |]. simpl in *. rewrite Hcc.
    apply set_eq. intros x.
    rewrite !elem_of_difference, elem_of_intersection, elem_of_list_to_set,
      elem_of_elements.
    tauto.
Qed.

Lemma quiet_publish_witness :
  sends_during (broadcast_transcript "hello" false) quiet_hub
    = [SendOk 1%nat (wire_message "hello" false quiet_hub);
       SendFail 0%nat (wire_message "hello" false quiet_hub)] ∧
  elements (connected_clients (after (broadcast_transcript "hello" false) quiet_hub))
    = [1%nat].
Proof.
  destruct (quiet_publish "hello" false quiet_hub) as [Hs Hc].
  - reflexivity.
  - rewrite Hs, Hc. split; vm_compute; reflexivity.
Defined.

(** X4.  A subscriber whose send failed in one publish is not sent to by the
    next publish: it is outside that publish's snapshot. *)
Theorem failed_subscriber_not_retried (text1 text2 : string)
    (final1 final2 : bool) (w : World) (s : Client) :
  hub_wf w →
  failures_of s (sends_during (broadcast_transcript text1 final1) w) ≠ [] →
  let w' := after (broadcast_transcript text1 final1) w in
  (s ∉ snapshot w') ∧
  frames_to s (sends_during (broadcast_transcript text2 final2) w') = [] ∧
  failures_of s (sends_during (broadcast_transcript text2 final2) w') = [].
Proof.
  intros Hwf Hfail. simpl.
  assert (s ∉ snapshot (after (broadcast_transcript text1 final1) w)) as Hout.
  { destruct (decide (connected_clients w = ∅)) as [He | He].
    { exfalso. apply Hfail. unfold sends_during, after.
      rewrite broadcast_empty by done. simpl. by rewrite drop_all. }
    destruct (send_to_all_spec (elements (connected_clients (at_snapshot w)))
                (wire_message text1 final1 w) (at_snapshot w))
      as (w' & evs & Hrun & Hev & Hnet & Hcl & Hmsg & Hgone).
    assert (broadcast_transcript text1 final1 w = (Return tt, w')) as Hb
      by (by rewrite broadcast_unfold).
    assert (net w' = net w ++ evs) as Hnet' by (by rewrite Hnet, at_snapshot_net).
    rewrite (sends_during_eq _ _ _ _ _ Hb Hnet') in Hfail.
    unfold after. rewrite Hb. simpl.
    pose proof (failure_event _ _ _ Hmsg Hfail) as Hin.
    assert (s < next_conn (at_snapshot w))%nat as Hlt.
    { apply (evolves_wf _ _ (at_snapshot_evolves w) Hwf).
      apply (proj1 (elem_of_elements _ _)). rewrite <- Hcl.
      apply list_elem_of_fmap. by exists (SendFail s (wire_message text1 final1 w)). }
    pose proof (Hgone s Hin Hlt) as Hs.
    unfold snapshot. case_bool_decide; [apply not_elem_of_empty |].
    eapply evolves_absent; [apply at_snapshot_evolves | | done].
    destruct Hev as [? _]. lia. }
  split; [done |]. by apply snapshot_outsider_not_sent.
Qed.

Lemma failed_subscriber_not_retried_witness :
  frames_to 0%nat (sends_during (broadcast_transcript "again" true)
                     (after (broadcast_transcript "hello" false) demo_hub)) = [] ∧
  failures_of 0%nat (sends_during (broadcast_transcript "again" true)
                       (after (broadcast_transcript "hello" false) demo_hub)) = [].
Proof.
  refine (proj2 (failed_subscriber_not_retried "hello" "again" false true
                   demo_hub 0%nat demo_hub_wf _)).
  vm_compute. discriminate.
Defined.

End PublishEffects.

Section SessionRuns.

(** X5.  [log_transcript] is local to the session log: in every state it
    sends nothing, leaves the subscriber set as it is, and changes no file
    other than the one its file object is bound to. *)
Theorem log_transcript_is_local (text : string) (is_final : bool) (w : World) :
  let w' := after (log_transcript text is_final) w in
  net w' = net w ∧ connected_clients w' = connected_clients w ∧
  ∀ other, (∀ f, session_file w = Some f → f_name f ≠ other) →
           fs_files w' !! other = fs_files w !! other.
Proof.
  simpl. destruct (log_transcript_hub text is_final w) as [Hn Hc].
  split; [done |]. split; [done |]. intros other Hother.
  unfold log_transcript, datetime_now, session_file_write, session_file_flush.
  unfold_monad. destruct (session_file w) as [[name buf closed] |] eqn:Hf; [| done].
  specialize (Hother _ eq_refl). simpl in Hother.
  simpl. rewrite Hf. simpl. destruct closed; [done |]. simpl.
  unfold flush_to_storage. simpl. by rewrite lookup_insert_ne.
Qed.

Lemma publish_start_open text is_final w name :
  session_open name w →
  session_open name (publish_start text is_final w) ∧
  stored name (publish_start text is_final w) =
    stored name w +:+
    block_format (strftime_HMS (clock w (clock_reads w)))
                 (if is_final then "FINAL" else "PARTIAL") text ∧
  clock (publish_start text is_final w) = clock w ∧
  clock_reads (publish_start text is_final w) = S (clock_reads w) ∧
  session_start_time (publish_start text is_final w) = session_start_time w.
Proof.
  intros Hopen.
  destruct (log_transcript_open text is_final
              (put_stdout (callback_label is_final +:+ text) w) name Hopen)
    as (w1 & Hrun & Hopen1 & Hst & _ & Hclk & Hreads & _).
  assert (session_start_time w1 = session_start_time w) as Hstart.
  { revert Hrun. unfold session_open in Hopen.
    unfold log_transcript, datetime_now, session_file_write, session_file_flush.
    unfold_monad. simpl. rewrite Hopen. simpl. rewrite Hopen. simpl.
    intros [= <-]. done. }
  unfold publish_start. unfold_monad. simpl. rewrite Hrun. simpl. done.
Qed.

Lemma on_text_open text is_final w name :
  session_open name w →
  ∃ w', on_text text is_final w = (Return tt, w') ∧
        session_open name w' ∧
        stored name w' =
          stored name w +:+
          block_format (strftime_HMS (clock w (clock_reads w)))
                       (if is_final then "FINAL" else "PARTIAL") text ∧
        clock w' = clock w ∧
        session_start_time w' = session_start_time w ∧
        (S (clock_reads w) ≤ clock_reads w' ≤ S (S (clock_reads w)))%nat.
Proof.
  intros Hopen.
  destruct (publish_start_open text is_final w name Hopen)
    as (Hopen1 & Hst & Hclk & Hreads & Hstart).
  assert (∀ f, session_file w = Some f → f_closed f = false) as Hnc.
  { intros f. rewrite Hopen. by intros [= <-]. }
  rewrite (on_text_in_session text is_final w Hnc).
  set (w1 := publish_start text is_final w) in *.
  destruct (broadcast_spec text is_final w1) as (w' & evs & Hrun & _).
  destruct (broadcast_logger text is_final w1) as [(Hf & Hs & Hfs & _ & Hc) Hr].
  unfold after in *. rewrite Hrun in *. simpl in *.
  exists w'. split; [done |]. unfold session_open, stored in *.
  rewrite Hf, Hfs, Hc, Hs. repeat split; try done; lia.
Qed.

(** X6.  In an open session a callback returns normally; it first appends one
    block to the log, stamped with the clock value it reads then, and only
    afterwards publishes, with a frame stamped with the next clock value
    read.  The publish adds nothing to the file. *)
Theorem on_text_logs_then_publishes (text : string) (is_final : bool) (w : World)
    (name : string) :
  session_open name w →
  let w1 := publish_start text is_final w in
  let w' := after (on_text text is_final) w in
  outcome (on_text text is_final) w = Return tt ∧
  stored name w1 = stored name w +:+
    block_format (strftime_HMS (clock w (clock_reads w)))
                 (if is_final then "FINAL" else "PARTIAL") text ∧
  stored name w' = stored name w1 ∧
  sends_during (on_text text is_final) w
    = sends_during (broadcast_transcript text is_final) w1 ∧
  ∀ c m, SendOk c m ∈ sends_during (on_text text is_final) w →
         m = json_dumps (transcript_event text is_final
                           (strftime_HMS (clock w (S (clock_reads w))))).
Proof.
  intros Hopen. simpl.
  destruct (publish_start_open text is_final w name Hopen)
    as (Hopen1 & Hst & Hclk & Hreads & _).
  destruct (on_text_open text is_final w name Hopen)
    as (w' & Hrun & _ & Hst' & _).
  assert (sends_during (on_text text is_final) w
          = sends_during (broadcast_transcript text is_final)
                         (publish_start text is_final w)) as Hsends.
  { unfold sends_during, after.
    rewrite (on_text_returns text is_final w); [| unfold outcome; by rewrite Hrun].
    by destruct (publish_start_hub text is_final w) as [-> _]. }
  unfold outcome, after. rewrite Hrun. simpl.
  split; [done |]. split; [done |]. split; [congruence |]. split; [done |].
  rewrite Hsends. intros c m Hin.
  destruct (broadcast_spec text is_final (publish_start text is_final w))
    as (w2 & evs & Hrun2 & _ & Hnet & _ & Hmsg & _).
  rewrite (sends_during_eq _ _ _ _ _ Hrun2 Hnet) in Hin.
  rewrite Forall_forall in Hmsg. specialize (Hmsg _ Hin). simpl in Hmsg.
  rewrite Hmsg. unfold wire_message. by rewrite Hclk, Hreads.
Qed.

Lemma on_text_logs_then_publishes_witness :
  outcome (on_text "hello" false) (after yield demo_session_with_subscriber)
    = Return tt ∧
  sends_during (on_text "hello" false) (after yield demo_session_with_subscriber)
    = [SendOk 0%nat (json_dumps (transcript_event "hello" false "07:05:02"))].
Proof.
  destruct (on_text_logs_then_publishes "hello" false
              (after yield demo_session_with_subscriber)
              "transcripts/transcription_20240309_070500.txt")
    as (Hret & _ & _ & Hs & _).
  - vm_compute. reflexivity.
  - split; [exact Hret |]. rewrite Hs. vm_compute. reflexivity.
Defined.

Lemma callbacks_open events w name :
  session_open name w →
  ∃ w' stamps,
    callbacks events w = (Return tt, w') ∧
    session_open name w' ∧
    length stamps = length events ∧
    Forall (fun n => (clock_reads w ≤ n < clock_reads w')%nat) stamps ∧
    stored name w' = stored name w +:+ session_blocks (clock w) stamps events ∧
    clock w' = clock w ∧ session_start_time w' = session_start_time w ∧
    (clock_reads w ≤ clock_reads w')%nat.
Proof.
  revert w. induction events as [| [text is_final] events IH]; intros w Hopen.
  - exists w, []. simpl. rewrite str_app_nil_r. repeat split; auto.
  - destruct (on_text_open text is_final w name Hopen)
      as (w1 & Hrun & Hopen1 & Hst & Hclk & Hstart & Hreads).
    destruct (IH w1 Hopen1)
      as (w' & stamps & Hrun' & Hopen' & Hlen & Hbounds & Hst' & Hclk' & Hstart' & Hreads').
    exists w', (clock_reads w :: stamps).
    unfold callbacks in *. simpl. unfold mbind at 1, M_bind at 1. simpl.
    rewrite Hrun. split; [exact Hrun' |]. split; [done |].
    split; [simpl; congruence |]. split.
    { constructor; [lia |]. eapply Forall_impl; [exact Hbounds |].
      simpl. intros n Hn. lia. }
    split; [| repeat split; try congruence; lia].
    rewrite Hst', Hst, Hclk. by rewrite str_app_assoc.
Qed.

Lemma create_session_file_clock w :
  clock (after create_session_file w) = clock w ∧
  clock_reads (after create_session_file w) = S (clock_reads w).
Proof. done. Qed.

(** X7.  A whole run, started in any state: the session is created, the
    recogniser calls back any number of times, the shutdown path runs.  The
    run ends normally and the session file holds the header, then one block
    per callback in the order of the callbacks, each stamped with a clock
    value read during the run, then the footer with the end time and the
    duration; the file object is left closed. *)
Theorem run_session_file_layout (events : list (string * bool)) (w : World) :
  let start := clock w (clock_reads w) in
  let name := session_filename start in
  let w' := after (run_session events) w in
  ∃ stamps finish,
    outcome (run_session events) w = Return tt ∧
    length stamps = length events ∧
    Forall (fun n => (clock_reads w < n < finish)%nat) stamps ∧
    stored name w' =
      session_header start +:+ session_blocks (clock w) stamps events +:+
      session_footer start (clock w finish) ∧
    session_file w' = Some (mkFile name EmptyString true).
Proof.
  simpl.
  destruct (create_session_file_spec w) as (w1 & Hrun1 & Hopen1 & Hstart1 & Hfs1).
  simpl in *.
  pose proof (create_session_file_clock w) as [Hclk1 Hreads1].
  unfold after in Hclk1, Hreads1. rewrite Hrun1 in Hclk1, Hreads1. simpl in *.
  destruct (callbacks_open events w1 _ Hopen1)
    as (w2 & stamps & Hrun2 & Hopen2 & Hlen & Hbounds & Hst2 & Hclk2 & Hstart2 & Hreads2).
  destruct (close_session_file_closes w2 _ (clock w (clock_reads w))
              (session_filename (clock w (clock_reads w))) Hopen2)
    as (w3 & Hrun3 & Hfile3 & Hst3); [congruence |].
  exists stamps, (clock_reads w2).
  unfold run_session, try_finally, outcome, after. unfold mbind, M_bind.
  rewrite Hrun1, Hrun2, Hrun3. simpl.
  split; [done |]. split; [done |]. split.
  { eapply Forall_impl; [exact Hbounds |]. simpl. intros n Hn. lia. }
  split; [| done].
  rewrite Hst3, Hst2, Hclk2, Hclk1. unfold stored at 1. rewrite Hfs1.
  rewrite lookup_insert_eq. simpl. by rewrite !str_app_assoc.
Qed.

(** X8.  The shutdown path is not guarded against a second run: with the file
    object already closed it raises [ValueError] at its first write, prints
    nothing and leaves the stored files as they are. *)
Theorem close_session_file_twice (log_filename : string) (w : World)
    (f : FileObj) (start : DateTime) :
  session_file w = Some f → f_closed f = true →
  session_start_time w = Some start →
  let w' := after (close_session_file log_filename) w in
  outcome (close_session_file log_filename) w = Raise closed_file_error ∧
  fs_files w' = fs_files w ∧ stdout w' = stdout w ∧
  session_file w' = session_file w.
Proof.
  intros Hf Hc Hs. simpl.
  unfold close_session_file, datetime_now, session_file_write.
  unfold_monad. rewrite Hf. simpl. rewrite Hs. simpl. rewrite Hf, Hc. done.
Qed.

Lemma close_session_file_twice_witness :
  outcome (close_session_file "transcripts/transcription_20240309_070500.txt")
          demo_closed
    = Raise closed_file_error ∧
  fs_files (after (close_session_file
                     "transcripts/transcription_20240309_070500.txt") demo_closed)
    = fs_files demo_closed.
Proof.
  destruct (close_session_file_twice
              "transcripts/transcription_20240309_070500.txt" demo_closed
              (mkFile "transcripts/transcription_20240309_070500.txt" EmptyString true)
              (demo_clock 0))
    as (Hret & Hfs & _); try (vm_compute; reflexivity).
  split; [exact Hret | exact Hfs].
Defined.

End SessionRuns.

Section Connections.

(** X9.  Connecting and disconnecting is a round trip on the subscriber set:
    a newly accepted connection is registered by its handler, and when the
    handler leaves, after a clean close or after an error, the set is what it
    was before the connection came. *)
Theorem connect_disconnect_round_trip (w : World) (err : option string) :
  hub_wf w →
  let websocket := next_conn w in
  let connected := env_step w EnvConnect in
  let gone := env_step connected (EnvDisconnect websocket err) in
  (websocket ∉ connected_clients w) ∧
  connected_clients connected = {[websocket]} ∪ connected_clients w ∧
  connected_clients gone = connected_clients w.
Proof.
  intros Hwf. simpl.
  assert (next_conn w ∉ connected_clients w) as Hfresh.
  { intros Hin. specialize (Hwf _ Hin). lia. }
  split; [done |]. split; [done |].
  rewrite bool_decide_eq_true_2 by lia.
  destruct err; simpl; apply set_eq; intros x;
    rewrite elem_of_difference, elem_of_union, elem_of_singleton;
    (split; [tauto | intros Hx; split; [tauto | by intros ->]]).
Qed.

Lemma connect_disconnect_round_trip_witness :
  connected_clients (env_step (env_step demo_hub EnvConnect)
                              (EnvDisconnect 2%nat (Some "connection reset")))
  = connected_clients demo_hub.
Proof.
  exact (proj2 (proj2 (connect_disconnect_round_trip demo_hub
                         (Some "connection reset") demo_hub_wf))).
Defined.

Lemma create_session_file_hub w :
  connected_clients (after create_session_file w) = connected_clients w ∧
  next_conn (after create_session_file w) = next_conn w.
Proof. done. Qed.





End Connections.

Section FileNames.

Lemma fmt_04d_value n :
  0 <= n < 10000 →
  digits_value (fmt_04d n) = n ∧ String.length (fmt_04d n) = 4%nat.
Proof.
  intros Hn.
  assert (forallb (fun k => let m := Z.of_nat k in
                            (digits_value (fmt_04d m) =? m) &&
                            Nat.eqb (String.length (fmt_04d m)) 4)
                  (seq 0 (Z.to_nat 10000)) = true) as Hall by (vm_compute; reflexivity).
  rewrite forallb_forall in Hall.
  specialize (Hall (Z.to_nat n)). rewrite Z2Nat.id in Hall by lia.
  assert (In (Z.to_nat n) (seq 0 (Z.to_nat 10000))) as Hin by (apply in_seq; lia).
  apply Hall in Hin. apply andb_true_iff in Hin as [H1 H2].
  split; [by apply Z.eqb_eq | by apply Nat.eqb_eq].
Qed.

Lemma fmt_02d_value n :
  0 <= n < 100 →
  digits_value (fmt_02d n) = n ∧ String.length (fmt_02d n) = 2%nat.
Proof.
  intros Hn.
  assert (forallb (fun k => let m := Z.of_nat k in
                            (digits_value (fmt_02d m) =? m) &&
                            Nat.eqb (String.length (fmt_02d m)) 2)
                  (seq 0 100) = true) as Hall by (vm_compute; reflexivity).
  rewrite forallb_forall in Hall.
  specialize (Hall (Z.to_nat n)). rewrite Z2Nat.id in Hall by lia.
  assert (In (Z.to_nat n) (seq 0 100)) as Hin by (apply in_seq; lia).
  apply Hall in Hin. apply andb_true_iff in Hin as [H1 H2].
  split; [by apply Z.eqb_eq | by apply Nat.eqb_eq].
Qed.

Lemma str_app_split (a a' b b' : string) :
  String.length a = String.length a' → a +:+ b = a' +:+ b' → a = a' ∧ b = b'.
Proof.
  revert a'. induction a as [| x a IH]; intros [| x' a'] Hlen Heq;
    try discriminate; [done |].
  injection Hlen as Hlen.
  change (String x (a +:+ b) = String x' (a' +:+ b')) in Heq.
  injection Heq as -> Heq. destruct (IH a' Hlen Heq) as [-> ->]. done.
Qed.

Lemma fmt_02d_split n n' (b b' : string) :
  0 <= n < 100 → 0 <= n' < 100 →
  fmt_02d n +:+ b = fmt_02d n' +:+ b' → n = n' ∧ b = b'.
Proof.
  intros Hn Hn' Heq.
  destruct (fmt_02d_value n Hn) as [Hv Hl].
  destruct (fmt_02d_value n' Hn') as [Hv' Hl'].
  destruct (str_app_split _ _ _ _ (eq_trans Hl (eq_sym Hl')) Heq) as [Hf Hb].
  split; [| done]. rewrite <- Hv, <- Hv'. by rewrite Hf.
Qed.

(** X11.  Sessions started in different seconds get different files: for
    dates with a four-digit year, the path written by [create_session_file]
    determines the year, month, day, hour, minute and second it was built
    from. *)
Theorem session_filename_injective (d1 d2 : DateTime) :
  valid_date d1 → valid_time d1 → valid_date d2 → valid_time d2 →
  session_filename d1 = session_filename d2 →
  year d1 = year d2 ∧ month d1 = month d2 ∧ day d1 = day d2 ∧
  hour d1 = hour d2 ∧ minute d1 = minute d2 ∧ second d1 = second d2.
Proof.
  intros (Hy1 & Hm1 & Hd1) (Hh1 & Hmi1 & Hs1) (Hy2 & Hm2 & Hd2) (Hh2 & Hmi2 & Hs2) Heq.
  unfold session_filename in Heq. apply String.app_inj in Heq.
  unfold strftime_compact in Heq. rewrite !str_app_assoc in Heq.
  destruct (fmt_04d_value (year d1)) as [Hv1 Hl1]; [lia |].
  destruct (fmt_04d_value (year d2)) as [Hv2 Hl2]; [lia |].
  destruct (str_app_split _ _ _ _ (eq_trans Hl1 (eq_sym Hl2)) Heq) as [Hy Heq1].
  assert (year d1 = year d2) as Hyear by (rewrite <- Hv1, <- Hv2; by rewrite Hy).
  apply fmt_02d_split in Heq1 as [Hmonth Heq2]; [| lia | lia].
  apply fmt_02d_split in Heq2 as [Hday Heq3]; [| lia | lia].
  apply String.app_inj in Heq3.
  apply fmt_02d_split in Heq3 as [Hhour Heq4]; [| lia | lia].
  apply fmt_02d_split in Heq4 as [Hminute Heq5]; [| lia | lia].
  apply fmt_02d_split in Heq5 as [Hsecond _]; [| lia | lia].
  done.
Qed.

Lemma session_filename_injective_witness :
  year (mkDateTime 2024 3 9 7 5 0 0) = year (mkDateTime 2024 3 9 7 5 0 999999) ∧
  month (mkDateTime 2024 3 9 7 5 0 0) = month (mkDateTime 2024 3 9 7 5 0 999999) ∧
  day (mkDateTime 2024 3 9 7 5 0 0) = day (mkDateTime 2024 3 9 7 5 0 999999) ∧
  hour (mkDateTime 2024 3 9 7 5 0 0) = hour (mkDateTime 2024 3 9 7 5 0 999999) ∧
  minute (mkDateTime 2024 3 9 7 5 0 0) = minute (mkDateTime 2024 3 9 7 5 0 999999) ∧
  second (mkDateTime 2024 3 9 7 5 0 0) = second (mkDateTime 2024 3 9 7 5 0 999999).
Proof.
  apply (session_filename_injective (mkDateTime 2024 3 9 7 5 0 0)
           (mkDateTime 2024 3 9 7 5 0 999999));
    try reflexivity; vm_compute; repeat split; discriminate.
Defined.

End FileNames.

Section Frames.

Lemma printable_app (a b : string) :
  printable (a +:+ b) = printable a && printable b.
Proof.
  induction a as [| x a IH]; [reflexivity |].
  change (is_printable x && printable (a +:+ b)
          = is_printable x && printable a && printable b).
  rewrite IH. by rewrite andb_assoc.
Qed.

Lemma printable_hex_digit n : printable (hex_digit n) = true.
Proof.
  unfold hex_digit. generalize (Z.to_nat n). intros k.
  do 16 (destruct k as [| k]; [reflexivity |]). by destruct k.
Qed.

Lemma printable_u_escape n : printable (u_escape n) = true.
Proof.
  unfold u_escape, hex4. rewrite !printable_app, !printable_hex_digit. reflexivity.
Qed.

Lemma printable_escape_code_point n : printable (escape_code_point n) = true.
Proof.
  unfold escape_code_point.
  repeat (case_match; [reflexivity |]).
  case_match eqn:Hrange.
  - apply andb_true_iff in Hrange as [Hlo Hhi].
    apply Z.leb_le in Hlo. apply Z.leb_le in Hhi.
    simpl. unfold is_printable. rewrite N_ascii_embedding by lia.
    rewrite andb_true_r. apply andb_true_iff. split; apply N.leb_le; lia.
  - case_match; [apply printable_u_escape |].
    by rewrite printable_app, !printable_u_escape.
Qed.

Lemma printable_encode_basestring_ascii s :
  printable (encode_basestring_ascii s) = true.
Proof.
  unfold encode_basestring_ascii. rewrite !printable_app.
  assert (printable (concat_str (map escape_code_point (code_points s))) = true) as ->.
  { induction (code_points s) as [| n l IH]; [reflexivity |].
    simpl. by rewrite printable_app, printable_escape_code_point, IH. }
  reflexivity.
Qed.

Lemma printable_encode_item kv : printable (encode_item kv) = true.
Proof.
  destruct kv as [k v]. unfold encode_item. cbn [fst snd].
  rewrite !printable_app, printable_encode_basestring_ascii.
  destruct v as [s | []]; unfold encode_value;
    rewrite ?printable_encode_basestring_ascii; reflexivity.
Qed.

Lemma printable_json_dumps d : printable (json_dumps d) = true.
Proof.
  unfold json_dumps. rewrite !printable_app.
  assert (printable (join_items (map encode_item d)) = true) as ->; [| reflexivity].
  induction d as [| kv d IH]; [reflexivity |].
  simpl. destruct (map encode_item d) as [| s l] eqn:Hd.
  - apply printable_encode_item.
  - rewrite !printable_app, printable_encode_item, IH. reflexivity.
Qed.

(** X12.  Whatever the text of the event, every frame a publish delivers is
    made of printable ASCII characters only: it holds no line break or other
    control character and no byte outside ASCII. *)
Theorem frames_are_printable_ascii (text : string) (is_final : bool) (w : World)
    (c : Client) (m : string) :
  SendOk c m ∈ sends_during (broadcast_transcript text is_final) w →
  printable m = true.
Proof.
  intros Hin.
  destruct (broadcast_spec text is_final w)
    as (w' & evs & Hrun & _ & Hnet & _ & Hmsg & _).
  rewrite (sends_during_eq _ _ _ _ _ Hrun Hnet) in Hin.
  rewrite Forall_forall in Hmsg. specialize (Hmsg _ Hin). simpl in Hmsg.
  rewrite Hmsg. apply printable_json_dumps.
Qed.

Lemma frames_are_printable_ascii_witness :
  printable (wire_message ("né 📝" +:+ nl) true demo_hub) = true.
Proof.
  apply (frames_are_printable_ascii ("né 📝" +:+ nl) true demo_hub 1%nat).
  vm_compute. constructor.
Defined.

End Frames.

Section SessionStart.

(** X13.  Starting a session is local to its own file: in any state,
    [create_session_file] makes sure the directory [transcripts] exists,
    changes no file other than the one it returns, records the start time,
    leaves the new file object open with nothing waiting in its buffer, and
    announces the file on the console.  It sends nothing and leaves the
    subscriber set alone. *)
Theorem create_session_file_is_local (w : World) :
  let start := clock w (clock_reads w) in
  let name := session_filename start in
  let w' := after create_session_file w in
  fs_dirs w' = {[ "transcripts" ]} ∪ fs_dirs w ∧
  (∀ other, other ≠ name → fs_files w' !! other = fs_files w !! other) ∧
  session_start_time w' = Some start ∧
  session_file w' = Some (mkFile name EmptyString false) ∧
  stdout w' = stdout w ++ ["📝 Transcription log created: " +:+ name] ∧
  net w' = net w ∧ connected_clients w' = connected_clients w.
Proof.
  cbv zeta.
  destruct (create_session_file_spec w) as (w' & Hrun & Hopen & Hstart & Hfs).
  cbv zeta in Hrun, Hopen, Hfs.
  assert (fs_dirs (after create_session_file w) = {[ "transcripts" ]} ∪ fs_dirs w)
    as Hdirs by reflexivity.
  assert (stdout (after create_session_file w)
          = stdout w ++ ["📝 Transcription log created: " +:+
                         session_filename (clock w (clock_reads w))])
    as Hout by reflexivity.
  assert (net (after create_session_file w) = net w) as Hnet by reflexivity.
  destruct (create_session_file_hub w) as [Hcc _].
  unfold after in *. rewrite Hrun in *. cbn [fst snd] in *.
  split; [done |]. split.
  { intros other Hne. rewrite Hfs. by rewrite lookup_insert_ne. }
  done.
Qed.

End SessionStart.
